(** * eos-scan-mc: the command line of the Markov-chain sampler client

    A shallow embedding of [src/clients/eos-scan-mc.cc]: the option loop of
    [CommandLine::parse], which builds the [MarkovChainSampler::Config], and
    the body of [main], which decides between point estimation, goodness of
    fit and sampling, selects the requested partition and maps every
    exception to an exit status.

    Doubles are IEEE binary64 values ([PrimFloat.float]); [unsigned] and
    [unsigned long] values are [N]; [argv] is a [list string]. *)

From Stdlib Require Import String Ascii List Bool NArith PeanoNat Lia.
From Stdlib Require Import ZArith Uint63 Floats DecimalString.
Import ListNotations.
Local Open Scope string_scope.
Local Open Scope list_scope.

(** ** Exceptions and the ways a computation ends *)

(** The three handlers of [main] distinguish [DoUsage], the [eos::Exception]
    hierarchy, and everything else (for instance [std::out_of_range]). *)
Inductive exn : Type :=
| DoUsage (what : string)
| Exception (what : string)
| unknown_exception (what : string).

(** A computation returns, throws, reads [argv] beyond its last entry (the
    null pointer [argv[argc]], from which no [std::string] can be built:
    undefined behaviour) or calls [abort()]. *)
Inductive result (A : Type) : Type :=
| Ok (a : A)
| Throw (e : exn)
| Undefined
| Aborted.

Arguments Ok {A} a.
Arguments Throw {A} e.
Arguments Undefined {A}.
Arguments Aborted {A}.

Definition bind {A B : Type} (m : result A) (k : A -> result B) : result B :=
  match m with
  | Ok a => k a
  | Throw e => Throw e
  | Undefined => Undefined
  | Aborted => Aborted
  end.

Notation "x <- m ;; k" := (bind m (fun x => k))
  (at level 61, m at next level, right associativity).
Notation "' p <- m ;; k" := (bind m (fun p => k))
  (at level 61, p pattern, m at next level, right associativity).

(** ** Numbers and strings *)

(** [std::numeric_limits<double>::max()]. *)
Definition double_max : float := 0x1.fffffffffffffp+1023%float.

(** [std::max (a, b)] is [(a < b) ? b : a] and [std::min (a, b)] is
    [(b < a) ? b : a]. *)
Definition std_max (a b : float) : float := if PrimFloat.ltb a b then b else a.
Definition std_min (a b : float) : float := if PrimFloat.ltb b a then b else a.

(** [stringify] of an unsigned number: its decimal digits. *)
Definition stringify (n : N) : string := NilEmpty.string_of_uint (N.to_uint n).

(** [key.substr(0, 2) != "--"] of the [--partition] loop. *)
Definition is_option (key : string) : bool := substring 0 2 key =? "--".

(** [values.insert(value)] on a [std::set<double>]: the set is kept as its
    ascending list of elements, and an element that compares equivalent to
    one already there is not inserted. *)
Fixpoint set_insert (value : float) (values : list float) : list float :=
  match values with
  | [] => [value]
  | x :: rest =>
      if PrimFloat.ltb value x then value :: values
      else if PrimFloat.ltb x value then x :: set_insert value rest
      else values
  end.

(** ** The data of the client *)

Module ParameterRange.
Record t : Type := mk { min : float; max : float }.
End ParameterRange.

(** [struct ParameterData]; the [Parameter] is kept by its name. *)
Module ParameterData.
Record t : Type := mk {
  parameter : string;
  min : float;
  max : float;
  prior : string
}.
End ParameterData.

(** [Kinematics] and [Options]: the declared names with their values, the
    latest first. *)
Definition Kinematics : Type := list (string * float).
Definition Options : Type := list (string * string).

(** [struct ObservableInput]; the observable is kept by its name. *)
Module ObservableInput.
Record t : Type := mk {
  observable : string;
  kinematics : Kinematics;
  min : float;
  central : float;
  max : float
}.
End ObservableInput.

(** What the factories [LogPrior::Flat], [LogPrior::Gauss],
    [LogPrior::LogGamma] and [LogPrior::Discrete] are called with. *)
Module LogPrior.
Inductive t : Type :=
| Flat (name : string) (range : ParameterRange.t)
| Gauss (name : string) (range : ParameterRange.t) (lower central upper : float)
| LogGamma (name : string) (range : ParameterRange.t) (lower central upper : float)
| Discrete (name : string) (values : list float).

Definition name (p : t) : string :=
  match p with
  | Flat n _ | Gauss n _ _ _ _ | LogGamma n _ _ _ _ | Discrete n _ => n
  end.
End LogPrior.

(** The [Analysis]: the priors it was given by [add], each with its nuisance
    flag, in the order of the calls. *)
Module ParameterDescription.
Record t : Type := mk { prior : LogPrior.t; nuisance : bool }.
End ParameterDescription.

Definition Analysis : Type := list ParameterDescription.t.

(** [analysis.log_prior(name)]: the prior of the parameter of that name, a
    null pointer ([None]) when there is none. *)
Definition log_prior (analysis : Analysis) (name : string) : option LogPrior.t :=
  option_map ParameterDescription.prior
    (find (fun d => LogPrior.name (ParameterDescription.prior d) =? name) analysis).

Inductive LogLevel : Type := ll_informational | ll_debug.

(** One partition: (parameter name, min, max) triples in their order. *)
Definition Partition : Type := list (string * float * float).

(** ** [MarkovChainSampler::Config]

    The fields the client reads or assigns.  The record is declared by the
    sampler; its setters below write one field as an assignment does. *)
Module Config.

Record t : Type := mk {
  number_of_chains : N;
  need_prerun : bool;
  need_main_run : bool;
  store_prerun : bool;
  store_observables_and_proposals : bool;
  chunk_size : N;
  chunks : N;
  parallelize : bool;
  use_strict_rvalue_definition : bool;
  output_file : string;
  partitions : list Partition;
  prerun_chains_per_partition : N;
  find_modes : bool;
  prerun_iterations_max : N;
  prerun_iterations_min : N;
  prerun_iterations_update : N;
  block_proposal_parameters : list string;
  proposal : string;
  student_t_degrees_of_freedom : float;
  seed : N;
  scale_reduction : float
}.

Definition set_number_of_chains (v : N) (r : t) : t :=
  mk v (need_prerun r) (need_main_run r) (store_prerun r)
    (store_observables_and_proposals r) (chunk_size r) (chunks r)
    (parallelize r) (use_strict_rvalue_definition r) (output_file r)
    (partitions r) (prerun_chains_per_partition r) (find_modes r)
    (prerun_iterations_max r) (prerun_iterations_min r)
    (prerun_iterations_update r) (block_proposal_parameters r) (proposal r)
    (student_t_degrees_of_freedom r) (seed r) (scale_reduction r).
Definition set_need_prerun (v : bool) (r : t) : t :=
  mk (number_of_chains r) v (need_main_run r) (store_prerun r)
    (store_observables_and_proposals r) (chunk_size r) (chunks r)
    (parallelize r) (use_strict_rvalue_definition r) (output_file r)
    (partitions r) (prerun_chains_per_partition r) (find_modes r)
    (prerun_iterations_max r) (prerun_iterations_min r)
    (prerun_iterations_update r) (block_proposal_parameters r) (proposal r)
    (student_t_degrees_of_freedom r) (seed r) (scale_reduction r).
Definition set_need_main_run (v : bool) (r : t) : t :=
  mk (number_of_chains r) (need_prerun r) v (store_prerun r)
    (store_observables_and_proposals r) (chunk_size r) (chunks r)
    (parallelize r) (use_strict_rvalue_definition r) (output_file r)
    (partitions r) (prerun_chains_per_partition r) (find_modes r)
    (prerun_iterations_max r) (prerun_iterations_min r)
    (prerun_iterations_update r) (block_proposal_parameters r) (proposal r)
    (student_t_degrees_of_freedom r) (seed r) (scale_reduction r).
Definition set_store_prerun (v : bool) (r : t) : t :=
  mk (number_of_chains r) (need_prerun r) (need_main_run r) v
    (store_observables_and_proposals r) (chunk_size r) (chunks r)
    (parallelize r) (use_strict_rvalue_definition r) (output_file r)
    (partitions r) (prerun_chains_per_partition r) (find_modes r)
    (prerun_iterations_max r) (prerun_iterations_min r)
    (prerun_iterations_update r) (block_proposal_parameters r) (proposal r)
    (student_t_degrees_of_freedom r) (seed r) (scale_reduction r).
Definition set_store_observables_and_proposals (v : bool) (r : t) : t :=
  mk (number_of_chains r) (need_prerun r) (need_main_run r) (store_prerun r) v
    (chunk_size r) (chunks r) (parallelize r) (use_strict_rvalue_definition r)
    (output_file r) (partitions r) (prerun_chains_per_partition r)
    (find_modes r) (prerun_iterations_max r) (prerun_iterations_min r)
    (prerun_iterations_update r) (block_proposal_parameters r) (proposal r)
    (student_t_degrees_of_freedom r) (seed r) (scale_reduction r).
Definition set_chunk_size (v : N) (r : t) : t :=
  mk (number_of_chains r) (need_prerun r) (need_main_run r) (store_prerun r)
    (store_observables_and_proposals r) v (chunks r) (parallelize r)
    (use_strict_rvalue_definition r) (output_file r) (partitions r)
    (prerun_chains_per_partition r) (find_modes r) (prerun_iterations_max r)
    (prerun_iterations_min r) (prerun_iterations_update r)
    (block_proposal_parameters r) (proposal r)
    (student_t_degrees_of_freedom r) (seed r) (scale_reduction r).
Definition set_chunks (v : N) (r : t) : t :=
  mk (number_of_chains r) (need_prerun r) (need_main_run r) (store_prerun r)
    (store_observables_and_proposals r) (chunk_size r) v (parallelize r)
    (use_strict_rvalue_definition r) (output_file r) (partitions r)
    (prerun_chains_per_partition r) (find_modes r) (prerun_iterations_max r)
    (prerun_iterations_min r) (prerun_iterations_update r)
    (block_proposal_parameters r) (proposal r)
    (student_t_degrees_of_freedom r) (seed r) (scale_reduction r).
Definition set_parallelize (v : bool) (r : t) : t :=
  mk (number_of_chains r) (need_prerun r) (need_main_run r) (store_prerun r)
    (store_observables_and_proposals r) (chunk_size r) (chunks r) v
    (use_strict_rvalue_definition r) (output_file r) (partitions r)
    (prerun_chains_per_partition r) (find_modes r) (prerun_iterations_max r)
    (prerun_iterations_min r) (prerun_iterations_update r)
    (block_proposal_parameters r) (proposal r)
    (student_t_degrees_of_freedom r) (seed r) (scale_reduction r).
Definition set_use_strict_rvalue_definition (v : bool) (r : t) : t :=
  mk (number_of_chains r) (need_prerun r) (need_main_run r) (store_prerun r)
    (store_observables_and_proposals r) (chunk_size r) (chunks r)
    (parallelize r) v (output_file r) (partitions r)
    (prerun_chains_per_partition r) (find_modes r) (prerun_iterations_max r)
    (prerun_iterations_min r) (prerun_iterations_update r)
    (block_proposal_parameters r) (proposal r)
    (student_t_degrees_of_freedom r) (seed r) (scale_reduction r).
Definition set_output_file (v : string) (r : t) : t :=
  mk (number_of_chains r) (need_prerun r) (need_main_run r) (store_prerun r)
    (store_observables_and_proposals r) (chunk_size r) (chunks r)
    (parallelize r) (use_strict_rvalue_definition r) v (partitions r)
    (prerun_chains_per_partition r) (find_modes r) (prerun_iterations_max r)
    (prerun_iterations_min r) (prerun_iterations_update r)
    (block_proposal_parameters r) (proposal r)
    (student_t_degrees_of_freedom r) (seed r) (scale_reduction r).
Definition set_partitions (v : list Partition) (r : t) : t :=
  mk (number_of_chains r) (need_prerun r) (need_main_run r) (store_prerun r)
    (store_observables_and_proposals r) (chunk_size r) (chunks r)
    (parallelize r) (use_strict_rvalue_definition r) (output_file r) v
    (prerun_chains_per_partition r) (find_modes r) (prerun_iterations_max r)
    (prerun_iterations_min r) (prerun_iterations_update r)
    (block_proposal_parameters r) (proposal r)
    (student_t_degrees_of_freedom r) (seed r) (scale_reduction r).
Definition set_prerun_chains_per_partition (v : N) (r : t) : t :=
  mk (number_of_chains r) (need_prerun r) (need_main_run r) (store_prerun r)
    (store_observables_and_proposals r) (chunk_size r) (chunks r)
    (parallelize r) (use_strict_rvalue_definition r) (output_file r)
    (partitions r) v (find_modes r) (prerun_iterations_max r)
    (prerun_iterations_min r) (prerun_iterations_update r)
    (block_proposal_parameters r) (proposal r)
    (student_t_degrees_of_freedom r) (seed r) (scale_reduction r).
Definition set_find_modes (v : bool) (r : t) : t :=
  mk (number_of_chains r) (need_prerun r) (need_main_run r) (store_prerun r)
    (store_observables_and_proposals r) (chunk_size r) (chunks r)
    (parallelize r) (use_strict_rvalue_definition r) (output_file r)
    (partitions r) (prerun_chains_per_partition r) v (prerun_iterations_max r)
    (prerun_iterations_min r) (prerun_iterations_update r)
    (block_proposal_parameters r) (proposal r)
    (student_t_degrees_of_freedom r) (seed r) (scale_reduction r).
Definition set_prerun_iterations_max (v : N) (r : t) : t :=
  mk (number_of_chains r) (need_prerun r) (need_main_run r) (store_prerun r)
    (store_observables_and_proposals r) (chunk_size r) (chunks r)
    (parallelize r) (use_strict_rvalue_definition r) (output_file r)
    (partitions r) (prerun_chains_per_partition r) (find_modes r) v
    (prerun_iterations_min r) (prerun_iterations_update r)
    (block_proposal_parameters r) (proposal r)
    (student_t_degrees_of_freedom r) (seed r) (scale_reduction r).
Definition set_prerun_iterations_min (v : N) (r : t) : t :=
  mk (number_of_chains r) (need_prerun r) (need_main_run r) (store_prerun r)
    (store_observables_and_proposals r) (chunk_size r) (chunks r)
    (parallelize r) (use_strict_rvalue_definition r) (output_file r)
    (partitions r) (prerun_chains_per_partition r) (find_modes r)
    (prerun_iterations_max r) v (prerun_iterations_update r)
    (block_proposal_parameters r) (proposal r)
    (student_t_degrees_of_freedom r) (seed r) (scale_reduction r).
Definition set_prerun_iterations_update (v : N) (r : t) : t :=
  mk (number_of_chains r) (need_prerun r) (need_main_run r) (store_prerun r)
    (store_observables_and_proposals r) (chunk_size r) (chunks r)
    (parallelize r) (use_strict_rvalue_definition r) (output_file r)
    (partitions r) (prerun_chains_per_partition r) (find_modes r)
    (prerun_iterations_max r) (prerun_iterations_min r) v
    (block_proposal_parameters r) (proposal r)
    (student_t_degrees_of_freedom r) (seed r) (scale_reduction r).
Definition set_block_proposal_parameters (v : list string) (r : t) : t :=
  mk (number_of_chains r) (need_prerun r) (need_main_run r) (store_prerun r)
    (store_observables_and_proposals r) (chunk_size r) (chunks r)
    (parallelize r) (use_strict_rvalue_definition r) (output_file r)
    (partitions r) (prerun_chains_per_partition r) (find_modes r)
    (prerun_iterations_max r) (prerun_iterations_min r)
    (prerun_iterations_update r) v (proposal r)
    (student_t_degrees_of_freedom r) (seed r) (scale_reduction r).
Definition set_proposal (v : string) (r : t) : t :=
  mk (number_of_chains r) (need_prerun r) (need_main_run r) (store_prerun r)
    (store_observables_and_proposals r) (chunk_size r) (chunks r)
    (parallelize r) (use_strict_rvalue_definition r) (output_file r)
    (partitions r) (prerun_chains_per_partition r) (find_modes r)
    (prerun_iterations_max r) (prerun_iterations_min r)
    (prerun_iterations_update r) (block_proposal_parameters r) v
    (student_t_degrees_of_freedom r) (seed r) (scale_reduction r).
Definition set_student_t_degrees_of_freedom (v : float) (r : t) : t :=
  mk (number_of_chains r) (need_prerun r) (need_main_run r) (store_prerun r)
    (store_observables_and_proposals r) (chunk_size r) (chunks r)
    (parallelize r) (use_strict_rvalue_definition r) (output_file r)
    (partitions r) (prerun_chains_per_partition r) (find_modes r)
    (prerun_iterations_max r) (prerun_iterations_min r)
    (prerun_iterations_update r) (block_proposal_parameters r) (proposal r) v
    (seed r) (scale_reduction r).
Definition set_seed (v : N) (r : t) : t :=
  mk (number_of_chains r) (need_prerun r) (need_main_run r) (store_prerun r)
    (store_observables_and_proposals r) (chunk_size r) (chunks r)
    (parallelize r) (use_strict_rvalue_definition r) (output_file r)
    (partitions r) (prerun_chains_per_partition r) (find_modes r)
    (prerun_iterations_max r) (prerun_iterations_min r)
    (prerun_iterations_update r) (block_proposal_parameters r) (proposal r)
    (student_t_degrees_of_freedom r) v (scale_reduction r).
Definition set_scale_reduction (v : float) (r : t) : t :=
  mk (number_of_chains r) (need_prerun r) (need_main_run r) (store_prerun r)
    (store_observables_and_proposals r) (chunk_size r) (chunks r)
    (parallelize r) (use_strict_rvalue_definition r) (output_file r)
    (partitions r) (prerun_chains_per_partition r) (find_modes r)
    (prerun_iterations_max r) (prerun_iterations_min r)
    (prerun_iterations_update r) (block_proposal_parameters r) (proposal r)
    (student_t_degrees_of_freedom r) (seed r) v.

End Config.

(** ** [class CommandLine] *)
Module CommandLine.

Record t : Type := mk {
  parameters : list (string * float);  (* values assigned by --fix, latest first *)
  global_options : Options;
  analysis : Analysis;
  config : Config.t;
  scan_parameters : list ParameterData.t;
  nuisance_parameters : list ParameterData.t;
  inputs : list ObservableInput.t;
  constraints : list string;
  creator : string;
  partition_index : option N;  (* std::shared_ptr<unsigned>, None when null *)
  resume_file : string;
  massive_mode_finding : bool;
  massive_maximum_iterations : N;
  optimize : bool;
  starting_point : list float;
  goodness_of_fit : bool;
  best_fit_point : list float;
  kinematics : Kinematics;  (* the local of parse, reset after each --observable *)
  log_level : LogLevel  (* the level held by the Log singleton *)
}.

Definition set_parameters (v : list (string * float)) (r : t) : t :=
  mk v (global_options r) (analysis r) (config r) (scan_parameters r)
    (nuisance_parameters r) (inputs r) (constraints r) (creator r)
    (partition_index r) (resume_file r) (massive_mode_finding r)
    (massive_maximum_iterations r) (optimize r) (starting_point r)
    (goodness_of_fit r) (best_fit_point r) (kinematics r) (log_level r).
Definition set_global_options (v : Options) (r : t) : t :=
  mk (parameters r) v (analysis r) (config r) (scan_parameters r)
    (nuisance_parameters r) (inputs r) (constraints r) (creator r)
    (partition_index r) (resume_file r) (massive_mode_finding r)
    (massive_maximum_iterations r) (optimize r) (starting_point r)
    (goodness_of_fit r) (best_fit_point r) (kinematics r) (log_level r).
Definition set_analysis (v : Analysis) (r : t) : t :=
  mk (parameters r) (global_options r) v (config r) (scan_parameters r)
    (nuisance_parameters r) (inputs r) (constraints r) (creator r)
    (partition_index r) (resume_file r) (massive_mode_finding r)
    (massive_maximum_iterations r) (optimize r) (starting_point r)
    (goodness_of_fit r) (best_fit_point r) (kinematics r) (log_level r).
Definition set_config (v : Config.t) (r : t) : t :=
  mk (parameters r) (global_options r) (analysis r) v (scan_parameters r)
    (nuisance_parameters r) (inputs r) (constraints r) (creator r)
    (partition_index r) (resume_file r) (massive_mode_finding r)
    (massive_maximum_iterations r) (optimize r) (starting_point r)
    (goodness_of_fit r) (best_fit_point r) (kinematics r) (log_level r).
Definition set_scan_parameters (v : list ParameterData.t) (r : t) : t :=
  mk (parameters r) (global_options r) (analysis r) (config r) v
    (nuisance_parameters r) (inputs r) (constraints r) (creator r)
    (partition_index r) (resume_file r) (massive_mode_finding r)
    (massive_maximum_iterations r) (optimize r) (starting_point r)
    (goodness_of_fit r) (best_fit_point r) (kinematics r) (log_level r).
Definition set_nuisance_parameters (v : list ParameterData.t) (r : t) : t :=
  mk (parameters r) (global_options r) (analysis r) (config r)
    (scan_parameters r) v (inputs r) (constraints r) (creator r)
    (partition_index r) (resume_file r) (massive_mode_finding r)
    (massive_maximum_iterations r) (optimize r) (starting_point r)
    (goodness_of_fit r) (best_fit_point r) (kinematics r) (log_level r).
Definition set_inputs (v : list ObservableInput.t) (r : t) : t :=
  mk (parameters r) (global_options r) (analysis r) (config r)
    (scan_parameters r) (nuisance_parameters r) v (constraints r) (creator r)
    (partition_index r) (resume_file r) (massive_mode_finding r)
    (massive_maximum_iterations r) (optimize r) (starting_point r)
    (goodness_of_fit r) (best_fit_point r) (kinematics r) (log_level r).
Definition set_constraints (v : list string) (r : t) : t :=
  mk (parameters r) (global_options r) (analysis r) (config r)
    (scan_parameters r) (nuisance_parameters r) (inputs r) v (creator r)
    (partition_index r) (resume_file r) (massive_mode_finding r)
    (massive_maximum_iterations r) (optimize r) (starting_point r)
    (goodness_of_fit r) (best_fit_point r) (kinematics r) (log_level r).
Definition set_creator (v : string) (r : t) : t :=
  mk (parameters r) (global_options r) (analysis r) (config r)
    (scan_parameters r) (nuisance_parameters r) (inputs r) (constraints r) v
    (partition_index r) (resume_file r) (massive_mode_finding r)
    (massive_maximum_iterations r) (optimize r) (starting_point r)
    (goodness_of_fit r) (best_fit_point r) (kinematics r) (log_level r).
Definition set_partition_index (v : option N) (r : t) : t :=
  mk (parameters r) (global_options r) (analysis r) (config r)
    (scan_parameters r) (nuisance_parameters r) (inputs r) (constraints r)
    (creator r) v (resume_file r) (massive_mode_finding r)
    (massive_maximum_iterations r) (optimize r) (starting_point r)
    (goodness_of_fit r) (best_fit_point r) (kinematics r) (log_level r).
Definition set_resume_file (v : string) (r : t) : t :=
  mk (parameters r) (global_options r) (analysis r) (config r)
    (scan_parameters r) (nuisance_parameters r) (inputs r) (constraints r)
    (creator r) (partition_index r) v (massive_mode_finding r)
    (massive_maximum_iterations r) (optimize r) (starting_point r)
    (goodness_of_fit r) (best_fit_point r) (kinematics r) (log_level r).
Definition set_massive_mode_finding (v : bool) (r : t) : t :=
  mk (parameters r) (global_options r) (analysis r) (config r)
    (scan_parameters r) (nuisance_parameters r) (inputs r) (constraints r)
    (creator r) (partition_index r) (resume_file r) v
    (massive_maximum_iterations r) (optimize r) (starting_point r)
    (goodness_of_fit r) (best_fit_point r) (kinematics r) (log_level r).
Definition set_massive_maximum_iterations (v : N) (r : t) : t :=
  mk (parameters r) (global_options r) (analysis r) (config r)
    (scan_parameters r) (nuisance_parameters r) (inputs r) (constraints r)
    (creator r) (partition_index r) (resume_file r) (massive_mode_finding r) v
    (optimize r) (starting_point r) (goodness_of_fit r) (best_fit_point r)
    (kinematics r) (log_level r).
Definition set_optimize (v : bool) (r : t) : t :=
  mk (parameters r) (global_options r) (analysis r) (config r)
    (scan_parameters r) (nuisance_parameters r) (inputs r) (constraints r)
    (creator r) (partition_index r) (resume_file r) (massive_mode_finding r)
    (massive_maximum_iterations r) v (starting_point r) (goodness_of_fit r)
    (best_fit_point r) (kinematics r) (log_level r).
Definition set_starting_point (v : list float) (r : t) : t :=
  mk (parameters r) (global_options r) (analysis r) (config r)
    (scan_parameters r) (nuisance_parameters r) (inputs r) (constraints r)
    (creator r) (partition_index r) (resume_file r) (massive_mode_finding r)
    (massive_maximum_iterations r) (optimize r) v (goodness_of_fit r)
    (best_fit_point r) (kinematics r) (log_level r).
Definition set_goodness_of_fit (v : bool) (r : t) : t :=
  mk (parameters r) (global_options r) (analysis r) (config r)
    (scan_parameters r) (nuisance_parameters r) (inputs r) (constraints r)
    (creator r) (partition_index r) (resume_file r) (massive_mode_finding r)
    (massive_maximum_iterations r) (optimize r) (starting_point r) v
    (best_fit_point r) (kinematics r) (log_level r).
Definition set_best_fit_point (v : list float) (r : t) : t :=
  mk (parameters r) (global_options r) (analysis r) (config r)
    (scan_parameters r) (nuisance_parameters r) (inputs r) (constraints r)
    (creator r) (partition_index r) (resume_file r) (massive_mode_finding r)
    (massive_maximum_iterations r) (optimize r) (starting_point r)
    (goodness_of_fit r) v (kinematics r) (log_level r).
Definition set_kinematics (v : Kinematics) (r : t) : t :=
  mk (parameters r) (global_options r) (analysis r) (config r)
    (scan_parameters r) (nuisance_parameters r) (inputs r) (constraints r)
    (creator r) (partition_index r) (resume_file r) (massive_mode_finding r)
    (massive_maximum_iterations r) (optimize r) (starting_point r)
    (goodness_of_fit r) (best_fit_point r) v (log_level r).
Definition set_log_level (v : LogLevel) (r : t) : t :=
  mk (parameters r) (global_options r) (analysis r) (config r)
    (scan_parameters r) (nuisance_parameters r) (inputs r) (constraints r)
    (creator r) (partition_index r) (resume_file r) (massive_mode_finding r)
    (massive_maximum_iterations r) (optimize r) (starting_point r)
    (goodness_of_fit r) (best_fit_point r) (kinematics r) v.

End CommandLine.

(** ** The collaborators

    What the client calls but does not define: the conversions of
    [eos/utils/destringify.hh], the range-checked value of
    [VerifiedRange<double>], the prior factories, the parameter and
    observable registries, the [Analysis], the clock, and the sampler.  They
    are taken as they are found, with no assumption on what they return; a
    call that may raise returns a [result]. *)
Record Collaborators : Type := {
  destringify_double : string -> float;
  destringify_unsigned : string -> N;
  destringify_unsigned_long : string -> N;
  (* VerifiedRange<double>(min, max, value): the value it holds, or what its
     constructor raises *)
  VerifiedRange : float -> float -> float -> result float;
  (* LogPrior::Flat, ::Gauss, ::LogGamma, ::Discrete *)
  LogPrior_make : LogPrior.t -> result unit;
  (* parameters[name] *)
  Parameters_at : string -> result unit;
  (* analysis.add(prior, nuisance) *)
  Analysis_add : Analysis -> LogPrior.t -> bool -> bool;
  (* Observable::make(name, parameters, kinematics, options): whether the
     pointer it returns is non-null *)
  Observable_make : string -> Kinematics -> Options -> result bool;
  (* Constraint::make(name, options) *)
  Constraint_make : string -> Options -> result unit;
  (* ::time(0) *)
  time : N;
  (* MarkovChainSampler::Config::Quick() *)
  Config_Quick : Config.t;
  (* the value found in goodness_of_fit, which the constructor of
     CommandLine does not initialise *)
  goodness_of_fit_initially : bool;
  (* prior->sample(rng), on the state of the generator *)
  LogPrior_sample : LogPrior.t -> N -> float * N;
  (* ana.optimize_minuit(starting_point, options): the parameters of the
     minimum found *)
  optimize_minuit : Analysis -> list float -> result (list float);
  (* ana.goodness_of_fit(point, 1e5 [, output_file]) *)
  Analysis_goodness_of_fit : Analysis -> list float -> option string -> result unit;
  (* MarkovChainSampler sampler(analysis, config) *)
  MarkovChainSampler_new : Analysis -> Config.t -> result unit;
  (* sampler.massive_mode_finding(options) *)
  massive_mode_finding_run : Analysis -> Config.t -> N -> bool -> result unit;
  (* sampler.run() *)
  MarkovChainSampler_run : Analysis -> Config.t -> result unit
}.

(** ** [CommandLine::parse] *)

(** [*(++a)]: the next word of [argv]. *)
Definition next (a : list string) : result (string * list string) :=
  match a with
  | [] => Undefined
  | word :: a' => Ok (word, a')
  end.

(** The loops of [--discrete], [--goodness-of-fit] and [--optimize]: read
    words up to the closing brace. *)
Fixpoint read_braced (A : Type) (push : A -> string -> A) (a : list string) (acc : A)
  : result (A * list string) :=
  match a with
  | [] => Undefined
  | word :: a' =>
      if "}" =? word then Ok (acc, a') else read_braced A push a' (push acc word)
  end.

Arguments read_braced {A} push a acc.

Definition with_config (f : Config.t -> Config.t) (inst : CommandLine.t) : CommandLine.t :=
  CommandLine.set_config (f (CommandLine.config inst)) inst.

(** An option's block: from the words after the option and the instance to
    the instance and the words left. *)
Definition handler : Type :=
  list string -> CommandLine.t -> result (CommandLine.t * list string).

Section Parse.

Context (E : Collaborators).



(** The loop of [--partition] (lines 474-484): [a] starts at the word read
    into [key]; it is left there when it starts with two dashes. *)
Fixpoint read_partition (a : list string) (partition : Partition)
  : result (Partition * list string) :=
  match a with
  | [] => Undefined
  | key :: a1 =>
      if is_option key then Ok (partition, a)
      else
        match a1 with
        | wmin :: wmax :: a3 =>
            read_partition a3
              (partition ++ [(key, destringify_double E wmin, destringify_double E wmax)])
        | _ => Undefined
        end
  end.

(** [--scan] and [--nuisance], lines 161-199: the name, the hard bounds and
    the number of sigmas, in one of the three formats
    a) PAR N_SIGMAS, b) PAR MIN MAX, c) PAR HARD_MIN HARD_MAX N_SIGMAS,
    up to the word [--prior]. *)
Definition scan_bounds (a : list string)
  : result (string * float * float * float * list string) :=
  '(name, a) <- next a ;;
  let min := (- double_max)%float in
  let max := double_max in
  '(word, a) <- next a ;;
  let number := destringify_double E word in
  '(keyword, a) <- next a ;;
  n_sigmas <- VerifiedRange E 0 10 0 ;;
  '(min, max, n_sigmas, keyword, a) <-
    (if keyword =? "--prior" then
       n_sigmas <- VerifiedRange E 0 10 number ;;
       if (n_sigmas =? 0)%float
       then Throw (DoUsage "number of sigmas: number expected")
       else Ok (min, max, n_sigmas, keyword, a)
     else
       let min := number in
       let max := destringify_double E keyword in
       '(keyword, a) <- next a ;;
       if negb (keyword =? "--prior") then
         n_sigmas <- VerifiedRange E 0 10 (destringify_double E keyword) ;;
         if (n_sigmas =? 0)%float
         then Throw (DoUsage "number of sigmas: number expected")
         else
           '(keyword, a) <- next a ;;
           Ok (min, max, n_sigmas, keyword, a)
       else Ok (min, max, n_sigmas, keyword, a)) ;;
  if negb (keyword =? "--prior")
  then Throw (DoUsage ("Missing correct prior specification for '" ++ name ++ "'!"))
  else Ok (name, min, max, n_sigmas, a).

(** Lines 201-237: the prior type, its quantiles, the range and the prior. *)
Definition scan_prior (name : string) (min max n_sigmas : float) (a : list string)
  : result (string * LogPrior.t * ParameterRange.t * list string) :=
  '(prior_type, a) <- next a ;;
  let range := ParameterRange.mk min max in
  if (prior_type =? "gaussian") || (prior_type =? "log-gamma") then
    '(word, a) <- next a ;;
    let lower := destringify_double E word in
    '(word, a) <- next a ;;
    let central := destringify_double E word in
    '(word, a) <- next a ;;
    let upper := destringify_double E word in
    (* adjust range, but always stay within hard bound supplied by the user *)
    let range :=
      if (0 <? n_sigmas)%float then
        ParameterRange.mk
          (std_max (ParameterRange.min range) (central - n_sigmas * (central - lower))%float)
          (std_min (ParameterRange.max range) (central + n_sigmas * (upper - central))%float)
      else range in
    let prior :=
      if prior_type =? "gaussian"
      then LogPrior.Gauss name range lower central upper
      else LogPrior.LogGamma name range lower central upper in
    _ <- LogPrior_make E prior ;;
    Ok (prior_type, prior, range, a)
  else if prior_type =? "flat" then
    if (0 <? n_sigmas)%float
    then Throw (DoUsage "Can't specify number of sigmas for flat prior")
    else
      let prior := LogPrior.Flat name range in
      _ <- LogPrior_make E prior ;;
      Ok (prior_type, prior, range, a)
  else Throw (DoUsage ("Unknown prior distribution: " ++ prior_type)).

(** Lines 159-256. *)
Definition parse_scan (argument : string) : handler := fun a inst =>
  '(name, min, max, n_sigmas, a) <- scan_bounds a ;;
  '(prior_type, prior, range, a) <- scan_prior name min max n_sigmas a ;;
  let nuisance := argument =? "--nuisance" in
  _ <- Parameters_at E name ;;
  let data :=
    ParameterData.mk name (ParameterRange.min range) (ParameterRange.max range)
      prior_type in
  let inst :=
    if nuisance
    then CommandLine.set_nuisance_parameters
           (CommandLine.nuisance_parameters inst ++ [data]) inst
    else CommandLine.set_scan_parameters
           (CommandLine.scan_parameters inst ++ [data]) inst in
  (* check for error in setting the prior and adding the parameter *)
  if negb (Analysis_add E (CommandLine.analysis inst) prior nuisance)
  then Throw (DoUsage ("Error in assigning " ++ prior_type
                       ++ " prior distribution to '" ++ name
                       ++ "'. Perhaps '" ++ name
                       ++ "' appears twice in the list of parameters?"))
  else
    Ok (CommandLine.set_analysis
          (CommandLine.analysis inst ++ [ParameterDescription.mk prior nuisance]) inst,
        a).

Definition parse_chains : handler := fun a inst =>
  '(word, a) <- next a ;;
  Ok (with_config (Config.set_number_of_chains (destringify_unsigned E word)) inst, a).

Definition parse_chunk_size : handler := fun a inst =>
  '(word, a) <- next a ;;
  Ok (with_config (Config.set_chunk_size (destringify_unsigned E word)) inst, a).

Definition parse_chunks : handler := fun a inst =>
  '(word, a) <- next a ;;
  Ok (with_config (Config.set_chunks (destringify_unsigned E word)) inst, a).

Definition parse_constraint : handler := fun a inst =>
  '(constraint_name, a) <- next a ;;
  _ <- Constraint_make E constraint_name (CommandLine.global_options inst) ;;
  Ok (CommandLine.set_constraints (CommandLine.constraints inst ++ [constraint_name]) inst, a).

Definition parse_debug : handler := fun a inst =>
  Ok (CommandLine.set_log_level ll_debug inst, a).

Definition parse_discrete : handler := fun a inst =>
  '(name, a) <- next a ;;
  '(lbrace, a) <- next a ;;
  if negb ("{" =? lbrace)
  then Throw (DoUsage "Put set of discrete values in braces {}")
  else
    '(values, a) <-
      read_braced (fun values word => set_insert (destringify_double E word) values) a [] ;;
    let prior := LogPrior.Discrete name values in
    _ <- LogPrior_make E prior ;;
    if negb (Analysis_add E (CommandLine.analysis inst) prior true)
    then Throw (DoUsage ("Unknown error in assigning discrete prior distribution to " ++ name))
    else
      Ok (CommandLine.set_analysis
            (CommandLine.analysis inst ++ [ParameterDescription.mk prior true]) inst,
          a).

Definition parse_fix : handler := fun a inst =>
  '(par_name, a) <- next a ;;
  '(word, a) <- next a ;;
  let value := destringify_double E word in
  _ <- Parameters_at E par_name ;;
  Ok (CommandLine.set_parameters ((par_name, value) :: CommandLine.parameters inst) inst, a).

Definition parse_kinematics : handler := fun a inst =>
  '(name, a) <- next a ;;
  '(word, a) <- next a ;;
  let value := destringify_double E word in
  Ok (CommandLine.set_kinematics ((name, value) :: CommandLine.kinematics inst) inst, a).

(** The warning about constraints defined earlier is only logged. *)
Definition parse_global_option : handler := fun a inst =>
  '(name, a) <- next a ;;
  '(value, a) <- next a ;;
  Ok (CommandLine.set_global_options ((name, value) :: CommandLine.global_options inst) inst, a).

Definition push_double (point : list float) (word : string) : list float :=
  point ++ [destringify_double E word].

Definition parse_goodness_of_fit : handler := fun a0 inst =>
  (* best-fit point is optional *)
  let inst := CommandLine.set_goodness_of_fit true inst in
  '(lbrace, a) <- next a0 ;;
  if negb ("{" =? lbrace) then Ok (inst, a0)
  else
    '(point, a) <- read_braced push_double a (CommandLine.best_fit_point inst) ;;
    Ok (CommandLine.set_best_fit_point point inst, a).

Definition parse_massive_mode_finding : handler := fun a inst =>
  '(word, a) <- next a ;;
  let iterations := destringify_unsigned E word in
  if (iterations =? 0)%N
  then Throw (DoUsage "Need to specify maximum number of Minuit iterations for massive mode finding")
  else
    Ok (CommandLine.set_massive_maximum_iterations iterations
          (CommandLine.set_massive_mode_finding true inst), a).

Definition parse_no_prerun : handler := fun a inst =>
  Ok (with_config (Config.set_need_prerun false) inst, a).

Definition parse_observable : handler := fun a inst =>
  '(observable_name, a) <- next a ;;
  made <- Observable_make E observable_name (CommandLine.kinematics inst)
            (CommandLine.global_options inst) ;;
  if negb made
  then Throw (DoUsage ("Unknown observable '" ++ observable_name ++ "'"))
  else
    '(word, a) <- next a ;;
    let min := destringify_double E word in
    '(word, a) <- next a ;;
    let central := destringify_double E word in
    '(word, a) <- next a ;;
    let max := destringify_double E word in
    let input :=
      ObservableInput.mk observable_name (CommandLine.kinematics inst) min central max in
    Ok (CommandLine.set_kinematics []
          (CommandLine.set_inputs (CommandLine.inputs inst ++ [input]) inst), a).

Definition parse_optimize : handler := fun a0 inst =>
  let inst := CommandLine.set_optimize true inst in
  (* starting point is optional *)
  '(lbrace, a) <- next a0 ;;
  if negb ("{" =? lbrace) then Ok (inst, a0)
  else
    '(point, a) <- read_braced push_double a (CommandLine.starting_point inst) ;;
    Ok (CommandLine.set_starting_point point inst, a).

Definition parse_output : handler := fun a inst =>
  '(filename, a) <- next a ;;
  Ok (with_config (Config.set_output_file filename) inst, a).

Definition parse_parallel : handler := fun a inst =>
  '(word, a) <- next a ;;
  Ok (with_config (Config.set_parallelize (negb (destringify_unsigned E word =? 0)%N)) inst, a).

Definition parse_partition : handler := fun a inst =>
  '(partition, a) <- read_partition a [] ;;
  Ok (with_config
        (fun c => Config.set_partitions (Config.partitions c ++ [partition]) c) inst, a).

Definition parse_partition_index : handler := fun a inst =>
  '(word, a) <- next a ;;
  let inst := CommandLine.set_partition_index (Some (destringify_unsigned E word)) inst in
  Ok (with_config (Config.set_store_prerun true)
        (with_config (Config.set_need_main_run false) inst), a).

Definition parse_prerun_chains_per_partition : handler := fun a inst =>
  '(word, a) <- next a ;;
  Ok (with_config (Config.set_prerun_chains_per_partition (destringify_unsigned E word)) inst, a).

Definition parse_prerun_find_modes : handler := fun a inst =>
  Ok (with_config (Config.set_find_modes true) inst, a).

Definition parse_prerun_max : handler := fun a inst =>
  '(word, a) <- next a ;;
  Ok (with_config (Config.set_prerun_iterations_max (destringify_unsigned E word)) inst, a).

Definition parse_prerun_min : handler := fun a inst =>
  '(word, a) <- next a ;;
  Ok (with_config (Config.set_prerun_iterations_min (destringify_unsigned E word)) inst, a).

Definition parse_prerun_only : handler := fun a inst =>
  Ok (with_config (Config.set_need_main_run false)
        (with_config (Config.set_store_prerun true)
           (with_config (Config.set_need_prerun true) inst)), a).

Definition parse_prerun_update : handler := fun a inst =>
  '(word, a) <- next a ;;
  Ok (with_config (Config.set_prerun_iterations_update (destringify_unsigned E word)) inst, a).

(** [--print-args] prints the arguments and calls [abort()]. *)
Definition parse_print_args : handler := fun a inst => Aborted.

Definition parse_prior_as_proposal : handler := fun a inst =>
  '(name, a) <- next a ;;
  match log_prior (CommandLine.analysis inst) name with
  | None => Throw (DoUsage ("Define parameter " ++ name
                            ++ " and its prior before --prior-as-proposal"))
  | Some _ =>
      Ok (with_config
            (fun c => Config.set_block_proposal_parameters
                        (Config.block_proposal_parameters c ++ [name]) c) inst, a)
  end.

Definition parse_proposal : handler := fun a inst =>
  '(word, a) <- next a ;;
  let inst := with_config (Config.set_proposal word) inst in
  if Config.proposal (CommandLine.config inst) =? "MultivariateStudentT" then
    '(word, a) <- next a ;;
    let dof := destringify_double E word in
    if (dof <=? 0)%float
    then Throw (DoUsage "No (or non-positive) degree of freedom for MultivariateStudentT specified")
    else Ok (with_config (Config.set_student_t_degrees_of_freedom dof) inst, a)
  else Ok (inst, a).

Definition parse_resume : handler := fun a inst =>
  '(word, a) <- next a ;;
  Ok (with_config (Config.set_need_prerun false) (CommandLine.set_resume_file word inst), a).

Definition parse_seed : handler := fun a inst =>
  '(value, a) <- next a ;;
  if "time" =? value
  then Ok (with_config (Config.set_seed (time E)) inst, a)
  else Ok (with_config (Config.set_seed (destringify_unsigned_long E value)) inst, a).

Definition parse_scale_reduction : handler := fun a inst =>
  '(word, a) <- next a ;;
  Ok (with_config (Config.set_scale_reduction (destringify_double E word)) inst, a).

Definition parse_store_prerun : handler := fun a inst =>
  Ok (with_config (Config.set_store_prerun true) inst, a).

Definition parse_store_observables_and_proposals : handler := fun a inst =>
  Ok (with_config (Config.set_store_observables_and_proposals true) inst, a).

(** One turn of the loop over [argv] (lines 151-634): [argument] is the word
    at [a], [a] the words after it; the words left for the next turn are
    returned with the instance. *)
Definition parse_argument (argument : string) : handler :=
  if (argument =? "--scan") || (argument =? "--nuisance") then parse_scan argument
  else if argument =? "--chains" then parse_chains
  else if argument =? "--chunk-size" then parse_chunk_size
  else if argument =? "--chunks" then parse_chunks
  else if argument =? "--constraint" then parse_constraint
  else if argument =? "--debug" then parse_debug
  else if argument =? "--discrete" then parse_discrete
  else if argument =? "--fix" then parse_fix
  else if argument =? "--kinematics" then parse_kinematics
  else if argument =? "--global-option" then parse_global_option
  else if argument =? "--goodness-of-fit" then parse_goodness_of_fit
  else if argument =? "--massive-mode-finding" then parse_massive_mode_finding
  else if argument =? "--no-prerun" then parse_no_prerun
  else if argument =? "--observable" then parse_observable
  else if argument =? "--optimize" then parse_optimize
  else if argument =? "--output" then parse_output
  else if argument =? "--parallel" then parse_parallel
  else if argument =? "--partition" then parse_partition
  else if argument =? "--partition-index" then parse_partition_index
  else if argument =? "--prerun-chains-per-partition" then parse_prerun_chains_per_partition
  else if argument =? "--prerun-find-modes" then parse_prerun_find_modes
  else if argument =? "--prerun-max" then parse_prerun_max
  else if argument =? "--prerun-min" then parse_prerun_min
  else if argument =? "--prerun-only" then parse_prerun_only
  else if argument =? "--prerun-update" then parse_prerun_update
  else if argument =? "--print-args" then parse_print_args
  else if argument =? "--prior-as-proposal" then parse_prior_as_proposal
  else if argument =? "--proposal" then parse_proposal
  else if argument =? "--resume" then parse_resume
  else if argument =? "--seed" then parse_seed
  else if argument =? "--scale-reduction" then parse_scale_reduction
  else if argument =? "--store-prerun" then parse_store_prerun
  else if argument =? "--store-observables-and-proposals"
       then parse_store_observables_and_proposals
  else fun _ _ => Throw (DoUsage ("Unknown command line argument: " ++ argument)).

(** The loop itself.  Every turn takes at least its own word, so as many
    turns as there are words always suffice; [None] stands for the turns
    having run out, which [parse] below never meets. *)
Fixpoint parse_loop (turns : nat) (a : list string) (inst : CommandLine.t)
  : option (result CommandLine.t) :=
  match a with
  | [] => Some (Ok inst)
  | argument :: a' =>
      match turns with
      | O => None
      | S turns' =>
          match parse_argument argument a' inst with
          | Ok (inst', rest) => parse_loop turns' rest inst'
          | Throw e => Some (Throw e)
          | Undefined => Some Undefined
          | Aborted => Some Aborted
          end
      end
  end.

(** The first [k] turns of the loop: the instance and the words the next
    turn starts from. *)
Fixpoint parse_turns (k : nat) (a : list string) (inst : CommandLine.t)
  : result (CommandLine.t * list string) :=
  match k, a with
  | O, _ | _, [] => Ok (inst, a)
  | S k', argument :: a' =>
      '(inst', rest) <- parse_argument argument a' inst ;;
      parse_turns k' rest inst'
  end.

(** The constructor of [CommandLine]. *)
Definition CommandLine_new : CommandLine.t :=
  CommandLine.mk [] [] []
    (Config.set_use_strict_rvalue_definition true
       (Config.set_parallelize true
          (Config.set_chunk_size 1000
             (Config.set_need_prerun true
                (Config.set_number_of_chains 4 (Config_Quick E))))))
    [] [] [] [] "" None "" false 2000 false [] (goodness_of_fit_initially E) []
    [] ll_informational.

(** [creator]: [argv[0]] and every argument after a blank. *)
Definition creator_of (argv0 : string) (args : list string) : string :=
  fold_left (fun creator arg => (creator ++ String " "%char arg)%string) args argv0.

(** [inst->parse(argc, argv)] on a fresh instance: [argv0] is [argv[0]] and
    [args] the words after it.  [parse_start] is the instance the loop
    starts from. *)
Definition parse_start (argv0 : string) (args : list string) : CommandLine.t :=
  CommandLine.set_creator (creator_of argv0 args)
    (CommandLine.set_log_level ll_informational CommandLine_new).

(** The loop from the words [a] on, with a turn for each word. *)
Definition parse_from (a : list string) (inst : CommandLine.t) : result CommandLine.t :=
  match parse_loop (length a) a inst with
  | Some r => r
  | None => Undefined
  end.

Definition parse (argv0 : string) (args : list string) : result CommandLine.t :=
  parse_from args (parse_start argv0 args).

End Parse.

(** ** [main] *)

(** What a run does that can be seen from outside: the calls into the
    optimizer and the sampler, and the report of each handler.  The header
    that [main] prints about the parsed command line is left out. *)
Inductive event : Type :=
| optimization (starting_point : list float)
| goodness_of_fit_computation (point : list float)
| sampler_constructed (config : Config.t)
| mode_finding_run
| sampler_run
| usage_printed (what : string)
| exception_printed (what : string)
| aborting_printed.

Inductive exit_status : Type := EXIT_SUCCESS | EXIT_FAILURE.

Inductive termination : Type :=
| exited (status : exit_status)
| undefined_behaviour
| aborted.

(** A computation of [main]: the events so far and how it went on. *)
Definition traced (A : Type) : Type := (list event * result A)%type.

Definition silent {A : Type} (r : result A) : traced A := ([], r).

Definition call {A : Type} (ev : event) (r : result A) : traced A := ([ev], r).

Definition tbind {A B : Type} (m : traced A) (k : A -> traced B) : traced B :=
  match m with
  | (trace, Ok a) => let '(trace', r) := k a in (trace ++ trace', r)
  | (trace, Throw e) => (trace, Throw e)
  | (trace, Undefined) => (trace, Undefined)
  | (trace, Aborted) => (trace, Aborted)
  end.

Notation "x <~ m ;; k" := (tbind m (fun x => k))
  (at level 61, m at next level, right associativity).

(** Lines 757-767: remove unwanted partitions and select only one.
    [temp.at(i)] raises [std::out_of_range] past the end. *)
Definition select_partition (i : N) (c : Config.t) : result Config.t :=
  match Config.partitions c with
  | [] => Throw (DoUsage ("Can't select partition " ++ stringify i ++ " from no partitions!"))
  | _ :: _ =>
      let temp := Config.partitions c in
      match nth_error temp (N.to_nat i) with
      | Some selected => Ok (Config.set_partitions [selected] c)
      | None => Throw (unknown_exception "std::out_of_range")
      end
  end.

Section Main.

Context (E : Collaborators).

(** Lines 714-720: a starting point sampled from the priors, one component
    for each parameter description. *)
Fixpoint sample_starting_point (ana : Analysis) (descriptions : list ParameterDescription.t)
  (rng : N) (starting_point : list float) : result (list float) :=
  match descriptions with
  | [] => Ok starting_point
  | i :: rest =>
      match log_prior ana (LogPrior.name (ParameterDescription.prior i)) with
      | None => Undefined
      | Some prior =>
          let '(x, rng') := LogPrior_sample E prior rng in
          sample_starting_point ana rest rng' (starting_point ++ [x])
      end
  end.

(** Lines 709-747: run optimization; use the starting point if given, else
    sample a point from the prior; optionally calculate a p-value at the
    mode. *)
Definition run_optimize (inst : CommandLine.t) : traced exit_status :=
  let ana := CommandLine.analysis inst in
  starting_point <~
    silent (match CommandLine.starting_point inst with
            | [] => sample_starting_point ana ana (time E) []
            | _ :: _ => Ok (CommandLine.starting_point inst)
            end) ;;
  if negb (length starting_point =? length ana)%nat
  then silent (Throw (DoUsage ("Starting point size of"
                               ++ stringify (N.of_nat (length starting_point))
                               ++ " doesn't match with analysis size of "
                               ++ stringify (N.of_nat (length ana)))))
  else
    ret <~ call (optimization starting_point) (optimize_minuit E ana starting_point) ;;
    if CommandLine.goodness_of_fit inst
       && match CommandLine.best_fit_point inst with [] => true | _ :: _ => false end
    then
      _ <~ call (goodness_of_fit_computation ret) (Analysis_goodness_of_fit E ana ret None) ;;
      silent (Ok EXIT_SUCCESS)
    else silent (Ok EXIT_SUCCESS).

(** Lines 757-783: the sampler, on the configuration left by the selection
    of the partition. *)
Definition run_sampler (inst : CommandLine.t) : traced exit_status :=
  config <~
    silent (match CommandLine.partition_index inst with
            | Some i => select_partition i (CommandLine.config inst)
            | None => Ok (CommandLine.config inst)
            end) ;;
  let ana := CommandLine.analysis inst in
  _ <~ call (sampler_constructed config) (MarkovChainSampler_new E ana config) ;;
  if CommandLine.massive_mode_finding inst
  then
    _ <~ call mode_finding_run
           (massive_mode_finding_run E ana config
              (CommandLine.massive_maximum_iterations inst) (Config.need_prerun config)) ;;
    silent (Ok EXIT_SUCCESS)
  else
    _ <~ call sampler_run (MarkovChainSampler_run E ana config) ;;
    silent (Ok EXIT_SUCCESS).

(** The [try] block after the call of [parse] (lines 646-783). *)
Definition main_body (inst : CommandLine.t) : traced exit_status :=
  match CommandLine.inputs inst, CommandLine.constraints inst with
  | [], [] => silent (Throw (DoUsage "No inputs, constraints nor build output specified"))
  | _, _ =>
      if CommandLine.optimize inst then run_optimize inst
      else if CommandLine.goodness_of_fit inst then
        (* goodness-of-fit for user specified parameter point *)
        _ <~ call (goodness_of_fit_computation (CommandLine.best_fit_point inst))
               (Analysis_goodness_of_fit E (CommandLine.analysis inst)
                  (CommandLine.best_fit_point inst)
                  (Some (Config.output_file (CommandLine.config inst)))) ;;
        silent (Ok EXIT_SUCCESS)
      else run_sampler inst
  end.

(** The three handlers (lines 785-828). *)
Definition handlers (m : traced exit_status) : list event * termination :=
  match m with
  | (trace, Ok status) => (trace, exited status)
  | (trace, Throw (DoUsage what)) => (trace ++ [usage_printed what], exited EXIT_FAILURE)
  | (trace, Throw (Exception what)) => (trace ++ [exception_printed what], exited EXIT_FAILURE)
  | (trace, Throw (unknown_exception _)) => (trace ++ [aborting_printed], exited EXIT_FAILURE)
  | (trace, Undefined) => (trace, undefined_behaviour)
  | (trace, Aborted) => (trace, aborted)
  end.

(** The run on an instance that [parse] has filled. *)
Definition run (inst : CommandLine.t) : list event * termination :=
  handlers (main_body inst).

Definition main (argv0 : string) (args : list string) : list event * termination :=
  handlers (inst <~ silent (parse E argv0 args) ;; main_body inst).

End Main.

(** Whether an event is the sampler being constructed or run. *)
Definition is_sampler_event (ev : event) : bool :=
  match ev with
  | sampler_constructed _ | mode_finding_run | sampler_run => true
  | _ => false
  end.

(** ** A stand-in for the collaborators

    One choice of collaborators on which the definitions run: numbers are
    read from decimal integer literals, the range check of [VerifiedRange]
    raises outside [min, max], every factory and registry accepts, the
    analysis refuses a parameter it already has, the optimizer returns its
    starting point, and the sampler's defaults have the main run on and the
    storing of the prerun off. *)
Module Standin.

Definition digits (s : string) : N :=
  match NilEmpty.uint_of_string s with
  | Some d => N.of_uint d
  | None => 0%N
  end.

Definition of_N (n : N) : float := PrimFloat.of_uint63 (Uint63.of_Z (Z.of_N n)).

Definition double (s : string) : float :=
  match s with
  | String "-"%char s' => (- of_N (digits s'))%float
  | _ => of_N (digits s)
  end.

Definition verified_range (min max value : float) : result float :=
  if (value <? min)%float then Throw (Exception "VerifiedRangeUnderflow")
  else if (max <? value)%float then Throw (Exception "VerifiedRangeOverflow")
  else Ok value.

Definition add (ana : Analysis) (prior : LogPrior.t) (nuisance : bool) : bool :=
  match log_prior ana (LogPrior.name prior) with
  | Some _ => false
  | None => true
  end.

Definition quick : Config.t :=
  Config.mk 1 true true false false 100 10 false false "" [] 1 false
    1000 100 100 [] "MultivariateGaussian" 1 0 1.

Definition collaborators : Collaborators :=
  {| destringify_double := double;
     destringify_unsigned := digits;
     destringify_unsigned_long := digits;
     VerifiedRange := verified_range;
     LogPrior_make := fun _ => Ok tt;
     Parameters_at := fun _ => Ok tt;
     Analysis_add := add;
     Observable_make := fun _ _ _ => Ok true;
     Constraint_make := fun _ _ => Ok tt;
     time := 0;
     Config_Quick := quick;
     goodness_of_fit_initially := false;
     LogPrior_sample := fun _ rng => (0%float, rng);
     optimize_minuit := fun _ starting_point => Ok starting_point;
     Analysis_goodness_of_fit := fun _ _ _ => Ok tt;
     MarkovChainSampler_new := fun _ _ => Ok tt;
     massive_mode_finding_run := fun _ _ _ _ => Ok tt;
     MarkovChainSampler_run := fun _ _ => Ok tt |}.

End Standin.


(** ** Notions the statements use *)

(** The constraint and the parameter of the usage example that [main]
    prints. *)
Definition usage_constraint : string := "B^0->K^*0gamma::BR@BaBar-2009".
Definition usage_parameter : string := "Abs{c9}".

(** The words left by a turn are what remains of the words it was given. *)
Definition suffix {A : Type} (rest a : list A) : Prop :=
  exists consumed, a = consumed ++ rest.

(** No event of an outcome is the sampler being constructed or run. *)
Definition no_sampler_event (outcome : list event * termination) : Prop :=
  forall ev, In ev (fst outcome) -> is_sampler_event ev = false.

(** The words of a declared partition, and the partition they declare. *)
Definition declared_words (triples : list (string * string * string)) : list string :=
  flat_map (fun '(name, min, max) => [name; min; max]) triples.

Definition declared_partition (E : Collaborators) (triples : list (string * string * string))
  : Partition :=
  map (fun '(name, min, max) => (name, destringify_double E min, destringify_double E max))
    triples.

(** An instance with two declared partitions of which the second is asked
    for. *)
Definition two_partitions : CommandLine.t :=
  CommandLine.set_partition_index (Some 1%N)
    (with_config
       (Config.set_partitions [[(usage_parameter, 0%float, 1%float)]; [(usage_parameter, 1%float, 2%float)]])
       (parse_start Standin.collaborators "eos-scan-mc" [])).

(** The options that the loop of [parse] knows (lines 159-632). *)
Definition options : list string :=
  ["--scan"; "--nuisance"; "--chains"; "--chunk-size"; "--chunks"; "--constraint";
   "--debug"; "--discrete"; "--fix"; "--kinematics"; "--global-option";
   "--goodness-of-fit"; "--massive-mode-finding"; "--no-prerun"; "--observable";
   "--optimize"; "--output"; "--parallel"; "--partition"; "--partition-index";
   "--prerun-chains-per-partition"; "--prerun-find-modes"; "--prerun-max";
   "--prerun-min"; "--prerun-only"; "--prerun-update"; "--print-args";
   "--prior-as-proposal"; "--proposal"; "--resume"; "--seed"; "--scale-reduction";
   "--store-prerun"; "--store-observables-and-proposals"].

(** An event that only reports a failure. *)
Definition is_report (ev : event) : bool :=
  match ev with
  | usage_printed _ | exception_printed _ | aborting_printed => true
  | _ => false
  end.

(** The range a prior was made on; a discrete prior has none. *)
Definition prior_range (p : LogPrior.t) : option ParameterRange.t :=
  match p with
  | LogPrior.Flat _ range
  | LogPrior.Gauss _ range _ _ _
  | LogPrior.LogGamma _ range _ _ _ => Some range
  | LogPrior.Discrete _ _ => None
  end.

(** The name under which [--scan] and [--nuisance] record the kind of a
    prior. *)
Definition prior_kind (p : LogPrior.t) : string :=
  match p with
  | LogPrior.Flat _ _ => "flat"
  | LogPrior.Gauss _ _ _ _ _ => "gaussian"
  | LogPrior.LogGamma _ _ _ _ _ => "log-gamma"
  | LogPrior.Discrete _ _ => "discrete"
  end.

(** A recorded parameter agrees with a description of the analysis: the same
    name, the nuisance flag, the kind of prior, and the range the prior was
    made on. *)
Definition described (nuisance : bool) (data : ParameterData.t)
  (d : ParameterDescription.t) : Prop :=
  LogPrior.name (ParameterDescription.prior d) = ParameterData.parameter data
  /\ ParameterDescription.nuisance d = nuisance
  /\ prior_kind (ParameterDescription.prior d) = ParameterData.prior data
  /\ prior_range (ParameterDescription.prior d)
     = Some (ParameterRange.mk (ParameterData.min data) (ParameterData.max data)).

(** The words of [--kinematics NAME VALUE] options. *)
Definition kinematics_words (declared : list (string * string)) : list string :=
  flat_map (fun '(name, value) => ["--kinematics"; name; value]) declared.

(** A computation of [main] that reports nothing itself and that returns
    only with success, after a call of the optimizer, the goodness of fit
    or the sampler. *)
Definition works (m : traced exit_status) : Prop :=
  (forall ev, In ev (fst m) -> is_report ev = false)
  /\ (forall status, snd m = Ok status -> status = EXIT_SUCCESS /\ fst m <> []).

(** Lines 769-783 on a given configuration: the sampler is constructed on
    it, and the mode finding, or else the run, is that of this sampler. *)
Definition sampler_on (E : Collaborators) (inst : CommandLine.t) (config : Config.t)
  : traced exit_status :=
  let ana := CommandLine.analysis inst in
  _ <~ call (sampler_constructed config) (MarkovChainSampler_new E ana config) ;;
  if CommandLine.massive_mode_finding inst
  then
    _ <~ call mode_finding_run
           (massive_mode_finding_run E ana config
              (CommandLine.massive_maximum_iterations inst) (Config.need_prerun config)) ;;
    silent (Ok EXIT_SUCCESS)
  else
    _ <~ call sampler_run (MarkovChainSampler_run E ana config) ;;
    silent (Ok EXIT_SUCCESS).

(** The stand-in with a sampler that takes one partition only: constructing
    it on any other number of partitions, or running it, raises. *)
Definition single_partition_sampler : Collaborators :=
  let one (config : Config.t) : result unit :=
    match Config.partitions config with
    | [_] => Ok tt
    | _ => Throw (Exception "not a single partition")
    end in
  let S := Standin.collaborators in
  {| destringify_double := destringify_double S;
     destringify_unsigned := destringify_unsigned S;
     destringify_unsigned_long := destringify_unsigned_long S;
     VerifiedRange := VerifiedRange S;
     LogPrior_make := LogPrior_make S;
     Parameters_at := Parameters_at S;
     Analysis_add := Analysis_add S;
     Observable_make := Observable_make S;
     Constraint_make := Constraint_make S;
     time := time S;
     Config_Quick := Config_Quick S;
     goodness_of_fit_initially := goodness_of_fit_initially S;
     LogPrior_sample := LogPrior_sample S;
     optimize_minuit := optimize_minuit S;
     Analysis_goodness_of_fit := Analysis_goodness_of_fit S;
     MarkovChainSampler_new := fun _ config => one config;
     massive_mode_finding_run := fun _ config _ _ => one config;
     MarkovChainSampler_run := fun _ config => one config |}.

(** The instance of two partitions with a constraint, so that it gets to the
    sampler. *)
Definition two_partitions_constrained : CommandLine.t :=
  CommandLine.set_constraints [usage_constraint] two_partitions.

(** * Properties of the embedding *)

#[local] Arguments String.eqb : simpl never.
#[local] Arguments PrimFloat.ltb : simpl never.
#[local] Arguments PrimFloat.leb : simpl never.
#[local] Arguments PrimFloat.eqb : simpl never.

(** ** The words a turn leaves are a suffix of the words it was given *)

Lemma suffix_refl {A : Type} (a : list A) : suffix a a.
Proof. now exists []. Qed.

Lemma suffix_cons {A : Type} (w : A) (rest a : list A) :
  suffix rest a -> suffix rest (w :: a).
Proof. intros [consumed ->]. now exists (w :: consumed). Qed.

Lemma suffix_trans {A : Type} (a b c : list A) :
  suffix a b -> suffix b c -> suffix a c.
Proof.
  intros [x ->] [y ->]. exists (y ++ x). now rewrite app_assoc.
Qed.

Lemma suffix_length {A : Type} (rest a : list A) :
  suffix rest a -> length rest <= length a.
Proof. intros [consumed ->]. rewrite length_app. lia. Qed.

Lemma suffix_In {A : Type} (x : A) (rest a : list A) :
  suffix rest a -> In x rest -> In x a.
Proof. intros [consumed ->] H. apply in_or_app. now right. Qed.

Create HintDb suffix.
#[local] Hint Resolve suffix_refl suffix_cons : suffix.

Lemma next_Ok (a : list string) (word : string) (a' : list string) :
  next a = Ok (word, a') -> a = word :: a'.
Proof. destruct a; simpl; congruence. Qed.

(** Taking apart a computation that returned: every [bind], conditional and
    [match] on the way to the [Ok] is decided. *)
Ltac step_returned H :=
  lazymatch type of H with
  | Ok _ = Ok _ => inversion H; clear H; subst
  | next _ = Ok (_, _) => apply next_Ok in H; subst
  | bind ?m _ = _ => destruct m eqn:?; cbn [bind] in H; try discriminate H
  | (let '(_, _) := ?p in _) = _ => destruct p
  | (if ?b then _ else _) = _ => destruct b eqn:?; try discriminate H
  | match ?x with _ => _ end = _ => destruct x eqn:?; try discriminate H
  end.

Ltac returned :=
  repeat match goal with
         | H : _ = Ok _ |- _ => step_returned H
         end.

Ltac solve_suffix :=
  first [ apply suffix_refl
        | assumption
        | apply suffix_cons; solve_suffix
        | match goal with
          | H : suffix ?x ?b |- suffix ?x ?c =>
              apply (suffix_trans x b c H); solve_suffix
          end ].

(** Deciding which option a turn of the loop is at. *)
Ltac which_option H :=
  unfold parse_argument in H;
  repeat match type of H with
         | (if ?b then _ else _) _ _ = _ => destruct b eqn:?
         end;
  try discriminate H;
  cbv beta zeta delta
    [parse_scan parse_chains parse_chunk_size
     parse_chunks parse_constraint parse_debug
     parse_discrete parse_fix parse_kinematics
     parse_global_option parse_goodness_of_fit parse_massive_mode_finding
     parse_no_prerun parse_observable parse_optimize
     parse_output parse_parallel parse_partition
     parse_partition_index parse_prerun_chains_per_partition parse_prerun_find_modes
     parse_prerun_max parse_prerun_min parse_prerun_only
     parse_prerun_update parse_print_args parse_prior_as_proposal
     parse_proposal parse_resume parse_seed
     parse_scale_reduction parse_store_prerun parse_store_observables_and_proposals] in H.

Lemma read_braced_suffix (A : Type) (push : A -> string -> A) (a : list string) :
  forall acc acc' rest,
    read_braced push a acc = Ok (acc', rest) -> suffix rest a.
Proof.
  induction a as [|word a IH]; simpl; intros acc acc' rest H.
  - discriminate.
  - destruct ("}" =? word).
    + inversion H; subst. auto with suffix.
    + eauto with suffix.
Qed.

Section Suffix.

Context (E : Collaborators).

Lemma read_partition_suffix_bounded (n : nat) :
  forall a partition partition' rest,
    length a <= n ->
    read_partition E a partition = Ok (partition', rest) -> suffix rest a.
Proof.
  induction n as [|n IH]; intros a partition partition' rest Hn H.
  - destruct a; [discriminate H | simpl in Hn; lia].
  - destruct a as [|key [|wmin [|wmax a3]]]; cbn [read_partition] in H;
      try discriminate H; destruct (is_option key); try discriminate H;
      try (inversion H; subst; auto with suffix; fail).
    apply IH in H; [auto with suffix | simpl in Hn; lia].
Qed.

Lemma read_partition_suffix (a : list string) partition partition' rest :
  read_partition E a partition = Ok (partition', rest) -> suffix rest a.
Proof. apply (read_partition_suffix_bounded (length a)). lia. Qed.

Lemma scan_bounds_suffix (a : list string) name min max n_sigmas rest :
  scan_bounds E a = Ok (name, min, max, n_sigmas, rest) -> suffix rest a.
Proof.
  unfold scan_bounds. intros H. returned; auto 10 with suffix.
Qed.

Lemma scan_prior_suffix name min max n_sigmas (a : list string) prior_type prior range rest :
  scan_prior E name min max n_sigmas a = Ok (prior_type, prior, range, rest) ->
  suffix rest a.
Proof.
  unfold scan_prior. intros H. returned; auto 10 with suffix.
Qed.

Lemma parse_argument_suffix (argument : string) (a : list string) inst inst' rest :
  parse_argument E argument a inst = Ok (inst', rest) -> suffix rest a.
Proof.
  intros H. which_option H.
  all: returned.
  all: repeat match goal with
       | H : scan_bounds _ _ = Ok _ |- _ => apply scan_bounds_suffix in H
       | H : scan_prior _ _ _ _ _ _ = Ok _ |- _ => apply scan_prior_suffix in H
       | H : read_braced _ _ _ = Ok _ |- _ => apply read_braced_suffix in H
       | H : read_partition _ _ _ = Ok _ |- _ => apply read_partition_suffix in H
       end.
  all: solve_suffix.
Qed.


End Suffix.

(** ** The loop never runs out of turns *)

Section Loop.

Context (E : Collaborators).

Lemma parse_loop_turns_irrelevant (n : nat) :
  forall m a inst,
    length a <= n -> length a <= m ->
    parse_loop E n a inst = parse_loop E m a inst.
Proof.
  induction n as [|n IH]; intros m a inst Hn Hm.
  - destruct a; [now destruct m | simpl in Hn; lia].
  - destruct a as [|argument a]; [now destruct m|].
    destruct m as [|m]; [simpl in Hm; lia|].
    cbn [parse_loop].
    destruct (parse_argument E argument a inst) as [[inst' rest]| | |] eqn:Harg;
      try reflexivity.
    apply parse_argument_suffix, suffix_length in Harg.
    simpl in Hn, Hm. apply IH; lia.
Qed.

Lemma parse_loop_total (n : nat) :
  forall a inst, length a <= n -> parse_loop E n a inst <> None.
Proof.
  induction n as [|n IH]; intros a inst Hn.
  - destruct a; [discriminate | simpl in Hn; lia].
  - destruct a as [|argument a]; [discriminate|].
    cbn [parse_loop].
    destruct (parse_argument E argument a inst) as [[inst' rest]| | |] eqn:Harg;
      try discriminate.
    apply parse_argument_suffix, suffix_length in Harg.
    simpl in Hn. apply IH; lia.
Qed.

(** So [parse_from] is what the loop returns. *)
Lemma parse_from_loop (a : list string) (inst : CommandLine.t) :
  parse_loop E (length a) a inst = Some (parse_from E a inst).
Proof.
  unfold parse_from.
  destruct (parse_loop E (length a) a inst) eqn:H; [reflexivity|].
  now apply parse_loop_total in H.
Qed.

Lemma parse_from_nil (inst : CommandLine.t) : parse_from E [] inst = Ok inst.
Proof. reflexivity. Qed.

(** The loop, one turn unfolded. *)
Lemma parse_from_cons (argument : string) (a : list string) (inst : CommandLine.t) :
  parse_from E (argument :: a) inst =
  '(inst', rest) <- parse_argument E argument a inst ;; parse_from E rest inst'.
Proof.
  unfold parse_from. cbn [length parse_loop].
  destruct (parse_argument E argument a inst) as [[inst' rest]| | |] eqn:Harg;
    try reflexivity.
  cbn [bind].
  apply parse_argument_suffix, suffix_length in Harg.
  now rewrite (parse_loop_turns_irrelevant (length a) (length rest)).
Qed.

(** After [k] turns the loop goes on from where they left it. *)
Lemma parse_from_turns (k : nat) :
  forall a inst inst' a',
    parse_turns E k a inst = Ok (inst', a') ->
    parse_from E a inst = parse_from E a' inst'.
Proof.
  induction k as [|k IH]; intros a inst inst' a' H.
  - destruct a; cbn in H; now inversion H.
  - destruct a as [|argument a]; [cbn in H; now inversion H|].
    cbn [parse_turns] in H. rewrite parse_from_cons.
    destruct (parse_argument E argument a inst) as [[inst1 rest]| | |];
      try discriminate H.
    cbn [bind] in *. now apply IH.
Qed.

(** What holds of the instance when a turn starts and is kept by every turn
    at a word that [allowed] admits, holds at the end of the loop, when none
    of the words left is refused. *)
Lemma parse_from_invariant (P : CommandLine.t -> Prop) (allowed : string -> Prop) :
  (forall argument a inst inst' rest,
      allowed argument -> P inst ->
      parse_argument E argument a inst = Ok (inst', rest) -> P inst') ->
  forall a inst inst',
    Forall allowed a -> P inst -> parse_from E a inst = Ok inst' -> P inst'.
Proof.
  intros Hturn a.
  remember (length a) as n eqn:Hn.
  revert a Hn. induction n as [n IH] using lt_wf_ind.
  intros a Hn inst inst' Hall HP H.
  destruct a as [|argument a].
  - rewrite parse_from_nil in H. now inversion H; subst.
  - rewrite parse_from_cons in H.
    destruct (parse_argument E argument a inst) as [[inst1 rest]| | |] eqn:Harg;
      try discriminate H.
    cbn [bind] in H.
    pose proof (parse_argument_suffix E _ _ _ _ _ Harg) as Hsuf.
    inversion Hall as [|? ? Hw Ha]; subst.
    apply (IH (length rest)) with (a := rest) (inst := inst1); auto.
    + apply suffix_length in Hsuf. simpl. lia.
    + rewrite Forall_forall in *. intros w Hin. apply Ha.
      eapply suffix_In; eauto.
    + eapply Hturn; eauto.
Qed.

End Loop.

(** ** The embedding at work *)

(** Two partitions are declared in their order; the words of the second end
    at the next option. *)
Example partitions_declared :
  option_map (fun inst => Config.partitions (CommandLine.config inst))
    (match parse Standin.collaborators "eos-scan-mc"
             ["--partition"; usage_parameter; "0"; "1"; "--partition"; usage_parameter; "1"; "2"; "Arg{c9}"; "-3"; "3";
              "--chains"; "2"] with
     | Ok inst => Some inst
     | _ => None
     end)
  = Some [[(usage_parameter, 0%float, 1%float)];
          [(usage_parameter, 1%float, 2%float); ("Arg{c9}", (-3)%float, 3%float)]].
Proof. vm_compute. reflexivity. Qed.

(** A partition that is the last option runs into the end of [argv]. *)
Example partition_at_the_end :
  main Standin.collaborators "eos-scan-mc" ["--constraint"; usage_constraint; "--partition"; usage_parameter; "0"; "1"]
  = ([], undefined_behaviour).
Proof. vm_compute. reflexivity. Qed.

(** Eleven sigmas are refused by the range check, not by a usage error. *)
Example eleven_sigmas :
  main Standin.collaborators "eos-scan-mc" ["--scan"; usage_parameter; "11"; "--prior"; "flat"]
  = ([exception_printed "VerifiedRangeOverflow"], exited EXIT_FAILURE).
Proof. vm_compute. reflexivity. Qed.

(** A sampling run on the selected partition. *)
Example sampling_run :
  let outcome :=
    main Standin.collaborators "eos-scan-mc"
      ["--constraint"; usage_constraint; "--scan"; usage_parameter; "0"; "2"; "--prior"; "flat";
       "--partition"; usage_parameter; "0"; "1"; "--partition"; usage_parameter; "1"; "2";
       "--partition-index"; "1"] in
  map (fun ev => match ev with
                 | sampler_constructed config => Some (Config.partitions config)
                 | _ => None
                 end) (fst outcome)
  = [Some [[(usage_parameter, 1%float, 2%float)]]; None]
  /\ snd outcome = exited EXIT_SUCCESS.
Proof. vm_compute. split; reflexivity. Qed.

(** ** Comparisons of doubles *)

(** A double above zero is not at most zero (and not a NaN). *)
Lemma positive_not_leb_zero (d : float) :
  (0 <? d)%float = true -> (d <=? 0)%float = false.
Proof.
  rewrite ltb_spec, leb_spec.
  change (Prim2SF 0) with (S754_zero false).
  destruct (Prim2SF d) as [s|s| |s m e]; cbn; try discriminate;
    destruct s; cbn; congruence.
Qed.

Lemma positive_not_zero (d : float) :
  (0 <? d)%float = true -> (d =? 0)%float = false.
Proof.
  rewrite ltb_spec, eqb_spec.
  change (Prim2SF 0) with (S754_zero false).
  destruct (Prim2SF d) as [s|s| |s m e]; cbn; try discriminate;
    destruct s; cbn; congruence.
Qed.

(** [std::max] never returns less than its first argument, [std::min] never
    more. *)
Lemma std_max_narrows (a b : float) :
  std_max a b = a \/ (a <? std_max a b)%float = true.
Proof. unfold std_max. destruct (a <? b)%float eqn:H; auto. Qed.

Lemma std_min_narrows (a b : float) :
  std_min a b = a \/ (std_min a b <? a)%float = true.
Proof. unfold std_min. destruct (b <? a)%float eqn:H; auto. Qed.

(** ** What every turn keeps *)

Section Turns.

Context (E : Collaborators).

Ltac config_kept :=
  repeat match goal with
         | |- context [if ?b then _ else _] => destruct b
         end;
  cbn [CommandLine.config with_config CommandLine.set_config
       CommandLine.set_parameters CommandLine.set_global_options
       CommandLine.set_analysis CommandLine.set_scan_parameters
       CommandLine.set_nuisance_parameters CommandLine.set_inputs
       CommandLine.set_constraints CommandLine.set_creator
       CommandLine.set_partition_index CommandLine.set_resume_file
       CommandLine.set_massive_mode_finding
       CommandLine.set_massive_maximum_iterations CommandLine.set_optimize
       CommandLine.set_starting_point CommandLine.set_goodness_of_fit
       CommandLine.set_best_fit_point CommandLine.set_kinematics
       CommandLine.set_log_level] in *;
  try reflexivity; try assumption; try congruence.

(** No option turns the main run back on. *)
Lemma turn_keeps_main_run_off argument a inst inst' rest :
  Config.need_main_run (CommandLine.config inst) = false ->
  parse_argument E argument a inst = Ok (inst', rest) ->
  Config.need_main_run (CommandLine.config inst') = false.
Proof.
  intros HP H. which_option H. all: returned. all: config_kept.
Qed.

(** No option turns the storing of the prerun back off. *)
Lemma turn_keeps_store_prerun argument a inst inst' rest :
  Config.store_prerun (CommandLine.config inst) = true ->
  parse_argument E argument a inst = Ok (inst', rest) ->
  Config.store_prerun (CommandLine.config inst') = true.
Proof.
  intros HP H. which_option H. all: returned. all: config_kept.
Qed.

(** Only [--prerun-only] turns the prerun back on. *)
Lemma turn_keeps_prerun_off argument a inst inst' rest :
  argument <> "--prerun-only" ->
  Config.need_prerun (CommandLine.config inst) = false ->
  parse_argument E argument a inst = Ok (inst', rest) ->
  Config.need_prerun (CommandLine.config inst') = false.
Proof.
  intros Hne HP H. which_option H. all: returned. all: config_kept.
  exfalso. apply Hne. now apply String.eqb_eq.
Qed.

(** Only [--partition-index] and [--prerun-only] touch the main run. *)
Lemma turn_keeps_main_run argument a inst inst' rest :
  argument <> "--partition-index" ->
  argument <> "--prerun-only" ->
  parse_argument E argument a inst = Ok (inst', rest) ->
  Config.need_main_run (CommandLine.config inst') =
  Config.need_main_run (CommandLine.config inst).
Proof.
  intros Hne1 Hne2 H. which_option H. all: returned. all: config_kept.
  all: exfalso; first [apply Hne1; now apply String.eqb_eq
                      | apply Hne2; now apply String.eqb_eq].
Qed.

End Turns.

(** ** From the command line to the outcome of [main] *)

Section Outcome.

Context (E : Collaborators).

(** Once [parse] has returned, [main] is the run on the parsed instance. *)
Lemma main_parsed (argv0 : string) (args : list string) (inst : CommandLine.t) :
  parse E argv0 args = Ok inst -> main E argv0 args = run E inst.
Proof.
  intros H. unfold main, run. rewrite H. unfold silent. cbn [tbind].
  now destruct (main_body E inst).
Qed.

(** A usage error of [parse] is printed, and nothing else happens. *)
Lemma main_usage (argv0 : string) (args : list string) (what : string) :
  parse E argv0 args = Throw (DoUsage what) ->
  main E argv0 args = ([usage_printed what], exited EXIT_FAILURE).
Proof. intros H. unfold main. now rewrite H. Qed.

(** What a turn throws, [parse] throws. *)
Lemma parse_throws (argv0 : string) (args : list string) (k : nat)
  (inst : CommandLine.t) (argument : string) (a : list string) (e : exn) :
  parse_turns E k args (parse_start E argv0 args) = Ok (inst, argument :: a) ->
  parse_argument E argument a inst = Throw e ->
  parse E argv0 args = Throw e.
Proof.
  intros Hk H. unfold parse.
  rewrite (parse_from_turns E k _ _ _ _ Hk), parse_from_cons. now rewrite H.
Qed.

Lemma parse_scan_at (argument : string) :
  argument = "--scan" \/ argument = "--nuisance" ->
  parse_argument E argument = parse_scan E argument.
Proof. now intros [-> | ->]. Qed.

(** The priors of the analysis are found under their own names. *)
Lemma log_prior_found (ana : Analysis) (i : ParameterDescription.t) :
  In i ana ->
  exists prior, log_prior ana (LogPrior.name (ParameterDescription.prior i)) = Some prior.
Proof.
  intros Hin. unfold log_prior.
  destruct (find _ ana) as [d|] eqn:Hfind; [now exists (ParameterDescription.prior d)|].
  exfalso. apply (find_none _ _ Hfind) in Hin.
  now rewrite String.eqb_refl in Hin.
Qed.

(** The sampled starting point has a component for each description. *)
Lemma sample_starting_point_length (ana : Analysis) :
  forall descriptions rng starting_point,
    incl descriptions ana ->
    exists sampled,
      sample_starting_point E ana descriptions rng starting_point = Ok sampled
      /\ length sampled = length starting_point + length descriptions.
Proof.
  induction descriptions as [|i rest IH]; intros rng starting_point Hincl.
  - exists starting_point. split; [reflexivity | simpl; lia].
  - cbn [sample_starting_point].
    destruct (log_prior_found ana i) as [prior ->]; [apply Hincl; now left|].
    destruct (LogPrior_sample E prior rng) as [x rng'].
    destruct (IH rng' (starting_point ++ [x])) as [sampled [-> Hlen]].
    + intros d Hd. apply Hincl. now right.
    + exists sampled. split; [reflexivity|].
      rewrite Hlen, length_app. simpl. lia.
Qed.

Ltac no_sampler :=
  intros ev Hin; cbn in Hin;
  repeat match goal with
         | H : _ \/ _ |- _ => destruct H
         | H : False |- _ => destruct H
         | H : _ = ev |- _ => subst ev
         end; reflexivity.

(** Point estimation never touches the sampler. *)
Lemma run_optimize_no_sampler (inst : CommandLine.t) :
  no_sampler_event (handlers (run_optimize E inst)).
Proof.
  unfold run_optimize, silent, call.
  destruct (match CommandLine.starting_point inst with
            | [] => _ | _ :: _ => _ end) as [sp| [what|what|what] | |];
    cbn [tbind]; try no_sampler.
  destruct (negb _); cbn [handlers app]; try no_sampler.
  destruct (optimize_minuit E _ sp) as [ret| [what|what|what] | |];
    cbn [tbind]; try no_sampler.
  destruct (_ && _).
  - destruct (Analysis_goodness_of_fit E _ ret None) as [[]| [what|what|what] | |];
      cbn [tbind handlers app]; no_sampler.
  - cbn [handlers app]. no_sampler.
Qed.

End Outcome.

(** ** Partitions: declaration and selection *)

Section Partitions.

Context (E : Collaborators).

(** The loop of [--partition] keeps the triples as they are written, in
    their order, up to the next option. *)
Lemma read_partition_declared (triples : list (string * string * string)) :
  forall (key : string) (rest : list string) (partition : Partition),
    Forall (fun triple => is_option (fst (fst triple)) = false) triples ->
    is_option key = true ->
    read_partition E (declared_words triples ++ key :: rest) partition
    = Ok (partition ++ declared_partition E triples, key :: rest).
Proof.
  induction triples as [|[[name min] max] triples IH]; intros key rest partition Hnames Hkey.
  - cbn [declared_words flat_map app read_partition declared_partition map].
    now rewrite Hkey, app_nil_r.
  - inversion Hnames as [|? ? Hname Hrest]; subst. cbn [fst] in Hname.
    change (declared_words ((name, min, max) :: triples) ++ key :: rest)
      with (name :: min :: max :: declared_words triples ++ key :: rest).
    cbn [read_partition]. rewrite Hname, IH by assumption.
    cbn [declared_partition map]. now rewrite <- app_assoc.
Qed.

(** The run of the sampler starts by constructing it on the configuration
    left by the selection, and constructs no other. *)
Lemma run_sampler_constructs (inst : CommandLine.t) (config : Config.t) :
  match CommandLine.partition_index inst with
  | Some i => select_partition i (CommandLine.config inst)
  | None => Ok (CommandLine.config inst)
  end = Ok config ->
  exists tail,
    fst (handlers (run_sampler E inst)) = sampler_constructed config :: tail
    /\ forall config', ~ In (sampler_constructed config') tail.
Proof.
  intros Hsel. unfold run_sampler, silent, call. rewrite Hsel. cbn [tbind].
  destruct (MarkovChainSampler_new E _ config) as [[]| [what|what|what] | |];
    cbn [tbind handlers app fst].
  2-6: eexists; split; [reflexivity|];
       intros config' Hin; cbn in Hin; intuition discriminate.
  destruct (CommandLine.massive_mode_finding inst).
  - destruct (massive_mode_finding_run E _ config _ _) as [[]| [what|what|what] | |];
      cbn [tbind handlers app fst];
      (eexists; split; [reflexivity|]);
      intros config' Hin; cbn in Hin; intuition discriminate.
  - destruct (MarkovChainSampler_run E _ config) as [[]| [what|what|what] | |];
      cbn [tbind handlers app fst];
      (eexists; split; [reflexivity|]);
      intros config' Hin; cbn in Hin; intuition discriminate.
Qed.

Lemma no_sampler_event_constructed (outcome : list event * termination) (config : Config.t) :
  no_sampler_event outcome -> ~ In (sampler_constructed config) (fst outcome).
Proof. intros Hno Hin. now apply Hno in Hin. Qed.

(** The calls of the sampler are made on the configuration left by the
    selection. *)
Lemma run_sampler_on (inst : CommandLine.t) (config : Config.t) :
  match CommandLine.partition_index inst with
  | Some i => select_partition i (CommandLine.config inst)
  | None => Ok (CommandLine.config inst)
  end = Ok config ->
  run_sampler E inst = sampler_on E inst config.
Proof.
  intros Hsel. unfold run_sampler. rewrite Hsel. unfold silent at 1. cbn [tbind].
  fold (sampler_on E inst config). now destruct (sampler_on E inst config).
Qed.

(** A run that is neither a point estimation nor a goodness-of-fit run, and
    that was given an input or a constraint, is the run of the sampler. *)
Lemma sampling_run_is_run_sampler (inst : CommandLine.t) :
  CommandLine.optimize inst = false ->
  CommandLine.goodness_of_fit inst = false ->
  CommandLine.inputs inst <> [] \/ CommandLine.constraints inst <> [] ->
  main_body E inst = run_sampler E inst.
Proof.
  intros Hopt Hgof Hgiven. unfold main_body. rewrite Hopt, Hgof.
  destruct (CommandLine.inputs inst), (CommandLine.constraints inst); try reflexivity.
  destruct Hgiven as [Hgiven | Hgiven]; now contradiction Hgiven.
Qed.

End Partitions.

(** C1.  The option [--partition] appends the declared triples, in their
    order, as one more partition; and when the partition list is not empty
    and the requested index [i] is within it, the selection leaves exactly
    the [i]-th declared partition in the configuration, all other fields
    untouched.  That configuration is the one the sampler is constructed on,
    and the only one, and a sampling run constructs it first: a run of the
    sampler is the calls of lines 769-783 on that configuration (the
    constructor, and the mode finding or the run, receive it), so that with
    a constructor and a run that return, the run ends successfully after
    exactly these two calls. *)
Theorem partition_selection_exact (E : Collaborators) (inst : CommandLine.t) (i : N) :
  CommandLine.partition_index inst = Some i ->
  N.to_nat i < length (Config.partitions (CommandLine.config inst)) ->
  exists selected : Partition,
    nth_error (Config.partitions (CommandLine.config inst)) (N.to_nat i) = Some selected
    /\ select_partition i (CommandLine.config inst)
       = Ok (Config.set_partitions [selected] (CommandLine.config inst))
    /\ (forall config,
           In (sampler_constructed config) (fst (run E inst)) ->
           config = Config.set_partitions [selected] (CommandLine.config inst))
    /\ (CommandLine.optimize inst = false ->
        CommandLine.goodness_of_fit inst = false ->
        CommandLine.inputs inst <> [] \/ CommandLine.constraints inst <> [] ->
        exists tail,
          fst (run E inst)
          = sampler_constructed (Config.set_partitions [selected] (CommandLine.config inst))
              :: tail)
    /\ (CommandLine.optimize inst = false ->
        CommandLine.goodness_of_fit inst = false ->
        CommandLine.inputs inst <> [] \/ CommandLine.constraints inst <> [] ->
        let config := Config.set_partitions [selected] (CommandLine.config inst) in
        run E inst = handlers (sampler_on E inst config)
        /\ (MarkovChainSampler_new E (CommandLine.analysis inst) config = Ok tt ->
            CommandLine.massive_mode_finding inst = false ->
            MarkovChainSampler_run E (CommandLine.analysis inst) config = Ok tt ->
            run E inst = ([sampler_constructed config; sampler_run], exited EXIT_SUCCESS)))
    /\ (forall triples key rest inst0,
           Forall (fun triple => is_option (fst (fst triple)) = false) triples ->
           is_option key = true ->
           parse_argument E "--partition" (declared_words triples ++ key :: rest) inst0
           = Ok (with_config
                   (Config.set_partitions
                      (Config.partitions (CommandLine.config inst0)
                       ++ [declared_partition E triples]))
                   inst0,
                 key :: rest)).
Proof.
  intros Hindex Hrange.
  destruct (nth_error (Config.partitions (CommandLine.config inst)) (N.to_nat i))
    as [selected|] eqn:Hnth; [|apply nth_error_None in Hnth; lia].
  exists selected.
  assert (Hsel : select_partition i (CommandLine.config inst)
                 = Ok (Config.set_partitions [selected] (CommandLine.config inst))).
  { unfold select_partition.
    destruct (Config.partitions (CommandLine.config inst)) as [|p ps] eqn:Hps.
    - simpl in Hrange. lia.
    - now rewrite Hnth. }
  assert (Hrun : match CommandLine.partition_index inst with
                 | Some i => select_partition i (CommandLine.config inst)
                 | None => Ok (CommandLine.config inst)
                 end = Ok (Config.set_partitions [selected] (CommandLine.config inst))).
  { now rewrite Hindex. }
  destruct (run_sampler_constructs E inst _ Hrun) as [tail [Htrace Htail]].
  split; [reflexivity|]. split; [exact Hsel|]. split; [|split; [|split]].
  - intros config Hin. unfold run, main_body in Hin.
    destruct (CommandLine.inputs inst), (CommandLine.constraints inst);
      try (cbn in Hin; intuition discriminate).
    all: destruct (CommandLine.optimize inst);
      [ now apply (no_sampler_event_constructed _ config (run_optimize_no_sampler E inst)) in Hin |].
    all: destruct (CommandLine.goodness_of_fit inst);
      [ unfold call in Hin;
        destruct (Analysis_goodness_of_fit E _ _ _) as [[]| [what|what|what] | |];
        cbn in Hin; intuition discriminate |].
    all: rewrite Htrace in Hin; destruct Hin as [Hin | Hin];
      [ now inversion Hin | now apply Htail in Hin ].
  - intros Hopt Hgof Hgiven. exists tail. unfold run, main_body.
    rewrite Hopt, Hgof.
    destruct (CommandLine.inputs inst), (CommandLine.constraints inst);
      try exact Htrace.
    destruct Hgiven as [Hgiven | Hgiven]; now contradiction Hgiven.
  - intros Hopt Hgof Hgiven config.
    assert (Hon : run E inst = handlers (sampler_on E inst config)).
    { unfold run.
      now rewrite (sampling_run_is_run_sampler E inst), (run_sampler_on E inst _ Hrun). }
    split; [exact Hon|].
    intros Hnew Hmassive Hsampled. rewrite Hon.
    unfold sampler_on, call, silent. cbn zeta.
    rewrite Hnew. cbn [tbind]. rewrite Hmassive, Hsampled. reflexivity.
  - intros triples key rest inst0 Hnames Hkey.
    change (parse_argument E "--partition") with (parse_partition E).
    unfold parse_partition. now rewrite read_partition_declared.
Qed.

Lemma partition_selection_exact_witness :
  select_partition 1 (CommandLine.config two_partitions)
  = Ok (Config.set_partitions [[(usage_parameter, 1%float, 2%float)]]
          (CommandLine.config two_partitions))
  /\ run single_partition_sampler two_partitions_constrained
     = ([sampler_constructed
           (Config.set_partitions [[(usage_parameter, 1%float, 2%float)]]
              (CommandLine.config two_partitions_constrained));
         sampler_run],
        exited EXIT_SUCCESS).
Proof.
  split.
  - destruct (partition_selection_exact Standin.collaborators two_partitions 1)
      as [selected [Hnth [Hsel _]]].
    + reflexivity.
    + vm_compute. lia.
    + vm_compute in Hnth. inversion Hnth; subst selected. exact Hsel.
  - destruct (partition_selection_exact single_partition_sampler
                two_partitions_constrained 1)
      as [selected [Hnth [_ [_ [_ [Hcalls _]]]]]].
    + reflexivity.
    + vm_compute. lia.
    + vm_compute in Hnth. inversion Hnth; subst selected.
      assert (Hgiven : CommandLine.inputs two_partitions_constrained <> []
                       \/ CommandLine.constraints two_partitions_constrained <> [])
        by (right; discriminate).
      destruct (Hcalls eq_refl eq_refl Hgiven) as [_ Hrun].
      exact (Hrun eq_refl eq_refl eq_refl).
Defined.

(** C2, as the code has it.  When a partition index is requested and no
    partition was declared, no run constructs or runs the sampler; and unless
    the run is a point estimation ([--optimize]) or a goodness-of-fit run,
    which return before the selection, it ends in a usage error: the one of
    the selection, or the one about missing inputs and constraints, which is
    checked first. *)
Theorem no_partitions_fails_before_sampler
  (E : Collaborators) (argv0 : string) (args : list string) (inst : CommandLine.t) (i : N) :
  parse E argv0 args = Ok inst ->
  CommandLine.partition_index inst = Some i ->
  Config.partitions (CommandLine.config inst) = [] ->
  no_sampler_event (main E argv0 args)
  /\ (CommandLine.optimize inst = false ->
      CommandLine.goodness_of_fit inst = false ->
      main E argv0 args
      = ([usage_printed
            match CommandLine.inputs inst, CommandLine.constraints inst with
            | [], [] => "No inputs, constraints nor build output specified"
            | _, _ => "Can't select partition " ++ stringify i ++ " from no partitions!"
            end],
         exited EXIT_FAILURE)).
Proof.
  intros Hparse Hindex Hnone. rewrite (main_parsed E _ _ _ Hparse).
  assert (Hsel : run_sampler E inst
                 = ([], Throw (DoUsage ("Can't select partition " ++ stringify i
                                        ++ " from no partitions!")))).
  { unfold run_sampler, select_partition. now rewrite Hindex, Hnone. }
  split.
  - unfold run, main_body.
    destruct (CommandLine.inputs inst), (CommandLine.constraints inst).
    1: intros ev Hin; cbn in Hin; intuition (subst; reflexivity).
    all: destruct (CommandLine.optimize inst); [apply run_optimize_no_sampler|].
    all: destruct (CommandLine.goodness_of_fit inst);
      [ unfold call;
        destruct (Analysis_goodness_of_fit E _ _ _) as [[]| [what|what|what] | |];
        intros ev Hin; cbn in Hin; intuition (subst; reflexivity) |].
    all: rewrite Hsel; intros ev Hin; cbn in Hin; intuition (subst; reflexivity).
  - intros Hopt Hgof. unfold run, main_body. rewrite Hopt, Hgof, Hsel.
    now destruct (CommandLine.inputs inst), (CommandLine.constraints inst).
Qed.

Lemma no_partitions_fails_before_sampler_witness :
  main Standin.collaborators "eos-scan-mc" ["--constraint"; usage_constraint; "--partition-index"; "0"]
  = ([usage_printed "Can't select partition 0 from no partitions!"], exited EXIT_FAILURE).
Proof.
  edestruct (no_partitions_fails_before_sampler Standin.collaborators "eos-scan-mc"
               ["--constraint"; usage_constraint; "--partition-index"; "0"]) as [_ H].
  - vm_compute. reflexivity.
  - reflexivity.
  - reflexivity.
  - exact (H eq_refl eq_refl).
Defined.

(** C2 as stated fails: a point-estimation run that requests a partition
    index with no partition declared ends successfully, after the
    optimization. *)
Lemma no_partitions_optimize_run_succeeds :
  exists inst,
    parse Standin.collaborators "eos-scan-mc"
      ["--constraint"; usage_constraint;
       "--scan"; usage_parameter; "0"; "15"; "--prior"; "flat";
       "--optimize"; "--partition-index"; "0"] = Ok inst
    /\ CommandLine.partition_index inst = Some 0%N
    /\ Config.partitions (CommandLine.config inst) = []
    /\ main Standin.collaborators "eos-scan-mc"
         ["--constraint"; usage_constraint;
          "--scan"; usage_parameter; "0"; "15"; "--prior"; "flat";
          "--optimize"; "--partition-index"; "0"]
       = ([optimization [0%float]], exited EXIT_SUCCESS).
Proof.
  eexists. split; [vm_compute; reflexivity|].
  repeat split.
Qed.

(** Past the end of a partition list that is not empty, the selection raises
    [std::out_of_range], which is no [DoUsage]. *)
Lemma select_partition_out_of_range (i : N) (c : Config.t) :
  Config.partitions c <> [] ->
  length (Config.partitions c) <= N.to_nat i ->
  select_partition i c = Throw (unknown_exception "std::out_of_range").
Proof.
  intros Hsome Hrange. unfold select_partition.
  destruct (Config.partitions c) as [|p ps] eqn:Hps; [now contradiction Hsome|].
  apply nth_error_None in Hrange. now rewrite Hrange.
Qed.

(** C3 fails on the code.  Past the end of a partition list that is not
    empty the selection raises [std::out_of_range]; with one partition
    declared and index 1 requested, [main] reports it through its last
    handler, as an unknown exception and not as a usage error.  The run
    still fails before the sampler is constructed. *)
Theorem partition_index_out_of_range_aborts :
  (forall (i : N) (c : Config.t),
      Config.partitions c <> [] ->
      length (Config.partitions c) <= N.to_nat i ->
      select_partition i c = Throw (unknown_exception "std::out_of_range"))
  /\ exists inst,
      parse Standin.collaborators "eos-scan-mc"
        ["--constraint"; usage_constraint;
         "--scan"; usage_parameter; "0"; "15"; "--prior"; "flat";
         "--partition"; usage_parameter; "0"; "7"; "--partition-index"; "1"]
      = Ok inst
      /\ CommandLine.partition_index inst = Some 1%N
      /\ Config.partitions (CommandLine.config inst) = [[(usage_parameter, 0%float, 7%float)]]
      /\ main Standin.collaborators "eos-scan-mc"
           ["--constraint"; usage_constraint;
            "--scan"; usage_parameter; "0"; "15"; "--prior"; "flat";
            "--partition"; usage_parameter; "0"; "7"; "--partition-index"; "1"]
         = ([aborting_printed], exited EXIT_FAILURE).
Proof.
  split; [exact select_partition_out_of_range|].
  eexists. split; [vm_compute; reflexivity|].
  repeat split.
Qed.

(** ** The Student-t proposal and its degrees of freedom *)

(** C4.  At [--proposal MultivariateStudentT d] the turn throws if and only
    if [d <= 0], and then it throws the usage error; for [d > 0] it returns
    with [d] stored as the degrees of freedom.  A run that meets the option
    with [d <= 0] prints the usage error and fails with nothing else done. *)
Theorem student_t_degrees_of_freedom_checked
  (E : Collaborators) (word : string) (rest : list string) (inst : CommandLine.t) :
  let dof := destringify_double E word in
  let turn := parse_argument E "--proposal" ("MultivariateStudentT" :: word :: rest) inst in
  let what := "No (or non-positive) degree of freedom for MultivariateStudentT specified" in
  let stored :=
    with_config (Config.set_student_t_degrees_of_freedom dof)
      (with_config (Config.set_proposal "MultivariateStudentT") inst) in
  ((exists e, turn = Throw e) <-> (dof <=? 0)%float = true)
  /\ ((dof <=? 0)%float = true -> turn = Throw (DoUsage what))
  /\ ((dof <=? 0)%float = false -> turn = Ok (stored, rest))
  /\ ((0 <? dof)%float = true ->
      turn = Ok (stored, rest)
      /\ Config.student_t_degrees_of_freedom (CommandLine.config stored) = dof)
  /\ (forall argv0 args k,
         parse_turns E k args (parse_start E argv0 args)
         = Ok (inst, "--proposal" :: "MultivariateStudentT" :: word :: rest) ->
         (dof <=? 0)%float = true ->
         main E argv0 args = ([usage_printed what], exited EXIT_FAILURE)).
Proof.
  intros dof turn what stored.
  assert (Hturn : turn = if (dof <=? 0)%float then Throw (DoUsage what) else Ok (stored, rest))
    by reflexivity.
  repeat split.
  - intros [e He]. rewrite Hturn in He. now destruct (dof <=? 0)%float.
  - intros Hle. exists (DoUsage what). now rewrite Hturn, Hle.
  - intros Hle. now rewrite Hturn, Hle.
  - intros Hle. now rewrite Hturn, Hle.
  - rewrite Hturn, (positive_not_leb_zero dof); auto.
  - intros argv0 args k Hk Hle. apply main_usage.
    apply (parse_throws E argv0 args k inst _ _ _ Hk).
    fold turn. now rewrite Hturn, Hle.
Qed.

(** ** The prior of a scan or nuisance parameter *)

(** C5.  Whenever the bounds part of [--scan] or [--nuisance] has been read
    with hard bounds [hmin], [hmax] and [n > 0] sigmas, and the prior is
    gaussian or log-gamma with quantiles lower, central, upper, the prior is
    made on, and the parameter recorded with, the range
    [max (hmin, central - n (central - lower))],
    [min (hmax, central + n (upper - central))];
    its lower end is [hmin] or above it, its upper end [hmax] or below. *)
Theorem quantile_range_narrows_hard_bounds
  (E : Collaborators) (argument : string) (a : list string) (inst : CommandLine.t)
  (name : string) (hmin hmax n : float) (prior_type wlower wcentral wupper : string)
  (rest : list string) :
  scan_bounds E a
  = Ok (name, hmin, hmax, n, prior_type :: wlower :: wcentral :: wupper :: rest) ->
  prior_type = "gaussian" \/ prior_type = "log-gamma" ->
  (0 <? n)%float = true ->
  let lower := destringify_double E wlower in
  let central := destringify_double E wcentral in
  let upper := destringify_double E wupper in
  let range :=
    ParameterRange.mk
      (std_max hmin (central - n * (central - lower))%float)
      (std_min hmax (central + n * (upper - central))%float) in
  let prior :=
    if prior_type =? "gaussian"
    then LogPrior.Gauss name range lower central upper
    else LogPrior.LogGamma name range lower central upper in
  let data := ParameterData.mk name (ParameterRange.min range) (ParameterRange.max range)
                prior_type in
  scan_prior E name hmin hmax n (prior_type :: wlower :: wcentral :: wupper :: rest)
  = (_ <- LogPrior_make E prior ;; Ok (prior_type, prior, range, rest))
  /\ (forall inst' rest',
         parse_scan E argument a inst = Ok (inst', rest') ->
         rest' = rest
         /\ CommandLine.analysis inst'
            = CommandLine.analysis inst
              ++ [ParameterDescription.mk prior (argument =? "--nuisance")]
         /\ (if argument =? "--nuisance"
             then CommandLine.nuisance_parameters inst'
                  = CommandLine.nuisance_parameters inst ++ [data]
             else CommandLine.scan_parameters inst'
                  = CommandLine.scan_parameters inst ++ [data]))
  /\ (ParameterRange.min range = hmin \/ (hmin <? ParameterRange.min range)%float = true)
  /\ (ParameterRange.max range = hmax \/ (ParameterRange.max range <? hmax)%float = true).
Proof.
  intros Hbounds Htype Hn lower central upper range prior data.
  assert (Hprior :
            scan_prior E name hmin hmax n (prior_type :: wlower :: wcentral :: wupper :: rest)
            = (_ <- LogPrior_make E prior ;; Ok (prior_type, prior, range, rest))).
  { unfold scan_prior. cbn [next bind ParameterRange.min ParameterRange.max].
    rewrite Hn.
    replace ((prior_type =? "gaussian") || (prior_type =? "log-gamma")) with true
      by (destruct Htype as [-> | ->]; reflexivity).
    reflexivity. }
  split; [exact Hprior|]. split; [|split].
  - intros inst' rest' H. unfold parse_scan in H. rewrite Hbounds in H.
    cbn [bind] in H. rewrite Hprior in H.
    destruct (LogPrior_make E prior) as [[]| | |]; try discriminate H.
    cbn [bind] in H.
    destruct (Parameters_at E name) as [[]| | |]; try discriminate H.
    cbn [bind] in H.
    destruct (negb _); [discriminate H|].
    inversion H; subst inst' rest'; clear H.
    split; [reflexivity|]. split.
    + now destruct (argument =? "--nuisance").
    + now destruct (argument =? "--nuisance").
  - apply std_max_narrows.
  - apply std_min_narrows.
Qed.

Lemma quantile_range_narrows_hard_bounds_witness :
  scan_prior Standin.collaborators usage_parameter 0 10 2 ["gaussian"; "3"; "4"; "6"]
  = Ok ("gaussian",
        LogPrior.Gauss usage_parameter (ParameterRange.mk 2 8) 3 4 6,
        ParameterRange.mk 2 8, []).
Proof.
  destruct (quantile_range_narrows_hard_bounds Standin.collaborators "--scan"
              [usage_parameter; "0"; "10"; "2"; "--prior"; "gaussian"; "3"; "4"; "6"]
              (parse_start Standin.collaborators "eos-scan-mc" [])
              usage_parameter 0 10 2 "gaussian" "3" "4" "6" []) as [H _].
  - vm_compute. reflexivity.
  - left. reflexivity.
  - vm_compute. reflexivity.
  - vm_compute in H. vm_compute. exact H.
Defined.

(** C7.  The prior type of [--scan] and [--nuisance] is one of flat,
    gaussian and log-gamma: any other name throws the usage error that names
    it, and a run that meets it prints that error and fails with nothing
    else done; the three names go on to their factories (a flat prior
    without sigmas). *)
Theorem prior_kinds_closed
  (E : Collaborators) (name : string) (min max n : float) (prior_type : string)
  (a : list string) :
  let unknown := DoUsage ("Unknown prior distribution: " ++ prior_type) in
  let range := ParameterRange.mk min max in
  (prior_type <> "flat" -> prior_type <> "gaussian" -> prior_type <> "log-gamma" ->
   scan_prior E name min max n (prior_type :: a) = Throw unknown)
  /\ (prior_type = "flat" -> (0 <? n)%float = false ->
      scan_prior E name min max n (prior_type :: a)
      = (_ <- LogPrior_make E (LogPrior.Flat name range) ;;
         Ok (prior_type, LogPrior.Flat name range, range, a)))
  /\ (prior_type = "gaussian" \/ prior_type = "log-gamma" ->
      forall wlower wcentral wupper rest,
        a = wlower :: wcentral :: wupper :: rest ->
        exists prior range',
          scan_prior E name min max n (prior_type :: a)
          = (_ <- LogPrior_make E prior ;; Ok (prior_type, prior, range', rest)))
  /\ (forall argv0 args k inst argument a0,
         parse_turns E k args (parse_start E argv0 args) = Ok (inst, argument :: a0) ->
         argument = "--scan" \/ argument = "--nuisance" ->
         scan_bounds E a0 = Ok (name, min, max, n, prior_type :: a) ->
         prior_type <> "flat" -> prior_type <> "gaussian" -> prior_type <> "log-gamma" ->
         main E argv0 args
         = ([usage_printed ("Unknown prior distribution: " ++ prior_type)],
            exited EXIT_FAILURE)).
Proof.
  intros unknown range.
  assert (Hunknown : prior_type <> "flat" -> prior_type <> "gaussian" ->
                     prior_type <> "log-gamma" ->
                     scan_prior E name min max n (prior_type :: a) = Throw unknown).
  { intros Hflat Hgauss Hgamma. unfold scan_prior. cbn [next bind].
    apply String.eqb_neq in Hflat, Hgauss, Hgamma.
    now rewrite Hflat, Hgauss, Hgamma. }
  split; [exact Hunknown|]. split; [|split].
  - intros -> Hn. unfold scan_prior. cbn [next bind]. rewrite Hn. reflexivity.
  - intros Htype wlower wcentral wupper rest ->.
    unfold scan_prior. cbn [next bind].
    replace ((prior_type =? "gaussian") || (prior_type =? "log-gamma")) with true
      by (destruct Htype as [-> | ->]; reflexivity).
    eexists. eexists. reflexivity.
  - intros argv0 args k inst argument a0 Hk Harg Hbounds Hflat Hgauss Hgamma.
    apply main_usage. apply (parse_throws E argv0 args k inst _ _ _ Hk).
    rewrite (parse_scan_at E argument Harg). unfold parse_scan.
    rewrite Hbounds. cbn [bind]. now rewrite Hunknown.
Qed.

(** C10, as the code has it.  A flat prior with a positive number of sigmas
    that the range check has accepted is a usage error: whenever a run meets
    [--scan] or [--nuisance] whose bounds part holds [n > 0] sigmas and whose
    prior type is flat, it prints that error and fails with nothing else
    done.  A number of sigmas that the range check refuses never gets to the
    prior: the run fails with what the range check raises, with nothing else
    done. *)
Theorem flat_prior_refuses_sigmas
  (E : Collaborators) (argv0 : string) (args : list string) (k : nat)
  (inst : CommandLine.t) (argument : string) (a : list string) :
  parse_turns E k args (parse_start E argv0 args) = Ok (inst, argument :: a) ->
  argument = "--scan" \/ argument = "--nuisance" ->
  (forall name min max n rest,
      scan_bounds E a = Ok (name, min, max, n, "flat" :: rest) ->
      (0 <? n)%float = true ->
      scan_prior E name min max n ("flat" :: rest)
      = Throw (DoUsage "Can't specify number of sigmas for flat prior")
      /\ parse_argument E argument a inst
         = Throw (DoUsage "Can't specify number of sigmas for flat prior")
      /\ main E argv0 args
         = ([usage_printed "Can't specify number of sigmas for flat prior"],
            exited EXIT_FAILURE))
  /\ (forall name word rest none e,
         a = name :: word :: "--prior" :: rest ->
         VerifiedRange E 0 10 0 = Ok none ->
         VerifiedRange E 0 10 (destringify_double E word) = Throw e ->
         main E argv0 args = handlers ([], Throw e))
  /\ (forall name wmin wmax word rest none e,
         a = name :: wmin :: wmax :: word :: rest ->
         wmax <> "--prior" -> word <> "--prior" ->
         VerifiedRange E 0 10 0 = Ok none ->
         VerifiedRange E 0 10 (destringify_double E word) = Throw e ->
         main E argv0 args = handlers ([], Throw e)).
Proof.
  intros Hk Harg.
  assert (Hthrown : forall e, scan_bounds E a = Throw e ->
                              main E argv0 args = handlers ([], Throw e)).
  { intros e Hbounds. unfold main.
    rewrite (parse_throws E argv0 args k inst argument a e Hk); [reflexivity|].
    rewrite (parse_scan_at E argument Harg). unfold parse_scan. now rewrite Hbounds. }
  split; [|split].
  - intros name min max n rest Hbounds Hn.
    assert (Hprior : scan_prior E name min max n ("flat" :: rest)
                     = Throw (DoUsage "Can't specify number of sigmas for flat prior")).
    { unfold scan_prior. cbn [next bind]. now rewrite Hn. }
    assert (Hturn : parse_argument E argument a inst
                    = Throw (DoUsage "Can't specify number of sigmas for flat prior")).
    { rewrite (parse_scan_at E argument Harg). unfold parse_scan.
      rewrite Hbounds. cbn [bind]. now rewrite Hprior. }
    repeat split; try assumption.
    apply main_usage. exact (parse_throws E argv0 args k inst _ _ _ Hk Hturn).
  - intros name word rest none e -> Hnone Hrefused. apply Hthrown.
    unfold scan_bounds. cbn [next bind]. rewrite Hnone. cbn [bind].
    change ("--prior" =? "--prior") with true. cbn [bind]. now rewrite Hrefused.
  - intros name wmin wmax word rest none e -> Hmax Hword Hnone Hrefused.
    apply String.eqb_neq in Hmax, Hword. apply Hthrown.
    unfold scan_bounds. cbn [next bind]. rewrite Hnone. cbn [bind].
    rewrite Hmax. cbn [next bind]. rewrite Hword. cbn [negb]. now rewrite Hrefused.
Qed.

Lemma flat_prior_refuses_sigmas_witness :
  main Standin.collaborators "eos-scan-mc"
    ["--constraint"; usage_constraint;
     "--nuisance"; usage_parameter; "0"; "10"; "2"; "--prior"; "flat"]
  = ([usage_printed "Can't specify number of sigmas for flat prior"], exited EXIT_FAILURE).
Proof.
  edestruct (flat_prior_refuses_sigmas Standin.collaborators "eos-scan-mc"
               ["--constraint"; usage_constraint;
                "--nuisance"; usage_parameter; "0"; "10"; "2"; "--prior"; "flat"]
               1) as [H _].
  - vm_compute. reflexivity.
  - right. reflexivity.
  - edestruct H as [_ [_ Hmain]].
    + vm_compute. reflexivity.
    + vm_compute. reflexivity.
    + exact Hmain.
Defined.

(** C10 as stated fails: eleven sigmas with a flat prior are refused by the
    range check of [0, 10] before the prior is looked at, and the run ends
    in the report of that exception, which is no usage error. *)
Lemma flat_prior_eleven_sigmas :
  main Standin.collaborators "eos-scan-mc"
    ["--constraint"; usage_constraint; "--scan"; usage_parameter; "11"; "--prior"; "flat"]
  = ([exception_printed "VerifiedRangeOverflow"], exited EXIT_FAILURE).
Proof. vm_compute. reflexivity. Qed.

(** ** Resuming, partition indices and the prerun *)

(** C6, as the code has it.  The turn at [--resume FILE] records the file
    and switches the prerun off; and in a run that meets the option, the
    configuration [parse] returns has the prerun off, provided the word
    [--prerun-only] does not come after it (that option switches the prerun
    back on). *)
Theorem resume_disables_prerun
  (E : Collaborators) (argv0 : string) (args : list string) (k : nat)
  (inst : CommandLine.t) (file : string) (rest : list string) (inst' : CommandLine.t) :
  parse_turns E k args (parse_start E argv0 args) = Ok (inst, "--resume" :: file :: rest) ->
  ~ In "--prerun-only" rest ->
  parse E argv0 args = Ok inst' ->
  (exists resumed,
      parse_argument E "--resume" (file :: rest) inst = Ok (resumed, rest)
      /\ CommandLine.resume_file resumed = file
      /\ Config.need_prerun (CommandLine.config resumed) = false)
  /\ Config.need_prerun (CommandLine.config inst') = false.
Proof.
  intros Hk Hafter Hparse.
  split.
  - eexists. split; [reflexivity|]. split; reflexivity.
  - unfold parse in Hparse.
    rewrite (parse_from_turns E k _ _ _ _ Hk), parse_from_cons in Hparse.
    change (parse_argument E "--resume" (file :: rest) inst)
      with (Ok (with_config (Config.set_need_prerun false)
                  (CommandLine.set_resume_file file inst), rest)) in Hparse.
    cbn [bind] in Hparse.
    apply (parse_from_invariant E
             (fun inst => Config.need_prerun (CommandLine.config inst) = false)
             (fun word => word <> "--prerun-only"))
      with (a := rest)
           (inst := with_config (Config.set_need_prerun false)
                      (CommandLine.set_resume_file file inst)).
    + intros argument a inst0 inst1 rest0 Hne HP Hturn.
      exact (turn_keeps_prerun_off E _ _ _ _ _ Hne HP Hturn).
    + apply Forall_forall. intros word Hin ->. now apply Hafter.
    + reflexivity.
    + exact Hparse.
Qed.

Lemma resume_disables_prerun_witness :
  exists inst',
    parse Standin.collaborators "eos-scan-mc"
      ["--prerun-only"; "--resume"; "f"; "--chains"; "2"] = Ok inst'
    /\ Config.need_prerun (CommandLine.config inst') = false.
Proof.
  eexists. split; [vm_compute; reflexivity|].
  edestruct (resume_disables_prerun Standin.collaborators "eos-scan-mc"
               ["--prerun-only"; "--resume"; "f"; "--chains"; "2"] 1) as [_ H].
  - vm_compute. reflexivity.
  - cbn. intros [H | [H | []]]; discriminate H.
  - vm_compute. reflexivity.
  - exact H.
Defined.

(** C6 as stated fails: with [--prerun-only] after [--resume], the
    configuration has a resume file and the prerun on, whatever the
    collaborators. *)
Lemma resume_then_prerun_only_keeps_prerun :
  exists args,
    args = ["--resume"; "f"; "--prerun-only"]
    /\ forall E : Collaborators,
        exists inst,
          parse E "eos-scan-mc" args = Ok inst
          /\ CommandLine.resume_file inst = "f"
          /\ Config.need_prerun (CommandLine.config inst) = true.
Proof.
  eexists. split; [reflexivity|].
  intros E. eexists. split; [reflexivity|]. split; reflexivity.
Qed.

Section Partitioned.

Context (E : Collaborators).

(** No option takes the partition index away. *)
Lemma turn_keeps_partition_index argument a inst inst' rest :
  CommandLine.partition_index inst <> None ->
  parse_argument E argument a inst = Ok (inst', rest) ->
  CommandLine.partition_index inst' <> None.
Proof.
  intros HP H. which_option H. all: returned.
  all: repeat match goal with
         | |- context [if ?b then _ else _] => destruct b
         end.
  all: simpl; try assumption; discriminate.
Qed.

(** The selection assigns the partitions only. *)
Lemma select_partition_flags (i : N) (c c' : Config.t) :
  select_partition i c = Ok c' ->
  Config.need_main_run c' = Config.need_main_run c
  /\ Config.store_prerun c' = Config.store_prerun c.
Proof.
  unfold select_partition. intros H.
  destruct (Config.partitions c); [discriminate H|].
  destruct (nth_error _ _); [|discriminate H].
  inversion H; subst c'. split; reflexivity.
Qed.

(** The sampler is constructed on nothing but what the selection leaves. *)
Lemma constructed_on_selection (inst : CommandLine.t) (config : Config.t) :
  In (sampler_constructed config) (fst (run E inst)) ->
  match CommandLine.partition_index inst with
  | Some i => select_partition i (CommandLine.config inst)
  | None => Ok (CommandLine.config inst)
  end = Ok config.
Proof.
  intros Hin. unfold run, main_body in Hin.
  destruct (CommandLine.inputs inst), (CommandLine.constraints inst);
    try (cbn in Hin; intuition discriminate).
  all: destruct (CommandLine.optimize inst);
    [ now apply (no_sampler_event_constructed _ config (run_optimize_no_sampler E inst)) in Hin |].
  all: destruct (CommandLine.goodness_of_fit inst);
    [ unfold call in Hin;
      destruct (Analysis_goodness_of_fit E _ _ _) as [[]| [what|what|what] | |];
      cbn in Hin; intuition discriminate |].
  all: destruct (match CommandLine.partition_index inst with
                 | Some i => _ | None => _ end) as [selected| [what|what|what] | |] eqn:Hsel;
    [ destruct (run_sampler_constructs E inst _ Hsel) as [tail [Htrace Htail]];
      rewrite Htrace in Hin; destruct Hin as [Hin | Hin];
      [ now inversion Hin | now apply Htail in Hin ]
    | unfold run_sampler in Hin; rewrite Hsel in Hin; cbn in Hin;
      intuition discriminate .. ].
Qed.

End Partitioned.

(** C9, as the code has it.  The turn at [--partition-index I] records the
    index, switches the main run off and the storing of the prerun on; the
    only other option that touches the main run is [--prerun-only], which
    has these two effects as well.  In a run that meets [--partition-index],
    the configuration [parse] returns holds an index, has the main run off
    and the storing of the prerun on; a point estimation or a goodness-of-fit
    run never gets to the sampler, whose output there is none of; and any
    other run constructs the sampler, and runs it or its mode finding, on
    nothing but the selected configuration, which has the main run off and
    the storing of the prerun on. *)
Theorem partition_index_prerun_only_output
  (E : Collaborators) (word : string) (rest : list string) (inst : CommandLine.t) :
  (exists indexed,
      parse_argument E "--partition-index" (word :: rest) inst = Ok (indexed, rest)
      /\ CommandLine.partition_index indexed = Some (destringify_unsigned E word)
      /\ Config.need_main_run (CommandLine.config indexed) = false
      /\ Config.store_prerun (CommandLine.config indexed) = true)
  /\ (forall argument a inst0 inst1 rest0,
         argument <> "--partition-index" ->
         argument <> "--prerun-only" ->
         parse_argument E argument a inst0 = Ok (inst1, rest0) ->
         Config.need_main_run (CommandLine.config inst1)
         = Config.need_main_run (CommandLine.config inst0))
  /\ (forall a inst0 inst1 rest0,
         parse_argument E "--prerun-only" a inst0 = Ok (inst1, rest0) ->
         Config.need_main_run (CommandLine.config inst1) = false
         /\ Config.store_prerun (CommandLine.config inst1) = true
         /\ Config.need_prerun (CommandLine.config inst1) = true)
  /\ (forall argv0 args k inst',
         parse_turns E k args (parse_start E argv0 args)
         = Ok (inst, "--partition-index" :: word :: rest) ->
         parse E argv0 args = Ok inst' ->
         Config.need_main_run (CommandLine.config inst') = false
         /\ Config.store_prerun (CommandLine.config inst') = true
         /\ (exists i, CommandLine.partition_index inst' = Some i)
         /\ (CommandLine.optimize inst' = true \/ CommandLine.goodness_of_fit inst' = true ->
             no_sampler_event (main E argv0 args))
         /\ (forall config,
                In (sampler_constructed config) (fst (main E argv0 args)) ->
                Config.need_main_run config = false /\ Config.store_prerun config = true)
         /\ (CommandLine.optimize inst' = false ->
             CommandLine.goodness_of_fit inst' = false ->
             CommandLine.inputs inst' <> [] \/ CommandLine.constraints inst' <> [] ->
             forall i config,
               CommandLine.partition_index inst' = Some i ->
               select_partition i (CommandLine.config inst') = Ok config ->
               Config.need_main_run config = false
               /\ Config.store_prerun config = true
               /\ main E argv0 args = handlers (sampler_on E inst' config))).
Proof.
  split; [|split; [|split]].
  - eexists. split; [reflexivity|]. repeat split.
  - intros argument a inst0 inst1 rest0 Hne1 Hne2 Hturn.
    exact (turn_keeps_main_run E _ _ _ _ _ Hne1 Hne2 Hturn).
  - intros a inst0 inst1 rest0 Hturn.
    change (parse_argument E "--prerun-only") with parse_prerun_only in Hturn.
    unfold parse_prerun_only in Hturn. inversion Hturn; subst. repeat split.
  - intros argv0 args k inst' Hk Hparse.
    pose proof Hparse as Hloop. unfold parse in Hloop.
    rewrite (parse_from_turns E k _ _ _ _ Hk), parse_from_cons in Hloop.
    change (parse_argument E "--partition-index" (word :: rest) inst)
      with (parse_partition_index E (word :: rest) inst) in Hloop.
    unfold parse_partition_index in Hloop. cbn [next bind] in Hloop.
    assert (Hflags : Config.need_main_run (CommandLine.config inst') = false
                     /\ Config.store_prerun (CommandLine.config inst') = true).
    { apply (parse_from_invariant E
               (fun inst => Config.need_main_run (CommandLine.config inst) = false
                            /\ Config.store_prerun (CommandLine.config inst) = true)
               (fun _ => True))
        with (4 := Hloop).
      + intros argument a inst0 inst1 rest0 _ [Hmain Hstore] Hturn. split.
        * exact (turn_keeps_main_run_off E _ _ _ _ _ Hmain Hturn).
        * exact (turn_keeps_store_prerun E _ _ _ _ _ Hstore Hturn).
      + apply Forall_forall. intros; exact I.
      + split; reflexivity. }
    assert (Hindex : exists i, CommandLine.partition_index inst' = Some i).
    { assert (Hsome : CommandLine.partition_index inst' <> None).
      { apply (parse_from_invariant E
                 (fun inst => CommandLine.partition_index inst <> None)
                 (fun _ => True))
          with (4 := Hloop).
        + intros argument a inst0 inst1 rest0 _ HP Hturn.
          exact (turn_keeps_partition_index E _ _ _ _ _ HP Hturn).
        + apply Forall_forall. intros; exact I.
        + discriminate. }
      destruct (CommandLine.partition_index inst') as [i|]; [now exists i|].
      now contradiction Hsome. }
    destruct Hflags as [Hmain Hstore].
    split; [exact Hmain|]. split; [exact Hstore|]. split; [exact Hindex|].
    rewrite (main_parsed E _ _ _ Hparse).
    split; [|split].
    + intros Hmode. unfold run, main_body.
      destruct (CommandLine.inputs inst'), (CommandLine.constraints inst').
      1: intros ev Hin; cbn in Hin; intuition (subst; reflexivity).
      all: destruct (CommandLine.optimize inst'); [apply run_optimize_no_sampler|].
      all: destruct Hmode as [Hmode | Hmode]; [discriminate Hmode|].
      all: rewrite Hmode; unfold call;
        destruct (Analysis_goodness_of_fit E _ _ _) as [[]| [what|what|what] | |];
        intros ev Hin; cbn in Hin; intuition (subst; reflexivity).
    + intros config Hin. apply constructed_on_selection in Hin.
      destruct Hindex as [i Hi]. rewrite Hi in Hin.
      destruct (select_partition_flags _ _ _ Hin) as [-> ->]. now split.
    + intros Hopt Hgof Hgiven i config Hi Hsel.
      destruct (select_partition_flags _ _ _ Hsel) as [-> ->].
      split; [exact Hmain|]. split; [exact Hstore|].
      unfold run. rewrite (sampling_run_is_run_sampler E inst' Hopt Hgof Hgiven).
      rewrite (run_sampler_on E inst' config); [reflexivity|]. now rewrite Hi.
Qed.

(** C9 as stated fails: [--prerun-only] is another option that switches the
    main run off and the storing of the prerun on together, from an instance
    where neither was so; and a partitioned invocation that is a point
    estimation puts out the result of the optimizer. *)
Lemma prerun_only_implies_both :
  (exists argument inst,
      argument <> "--partition-index"
      /\ Config.need_main_run (CommandLine.config inst) = true
      /\ Config.store_prerun (CommandLine.config inst) = false
      /\ forall (E : Collaborators) (a : list string),
          exists inst',
            parse_argument E argument a inst = Ok (inst', a)
            /\ Config.need_main_run (CommandLine.config inst') = false
            /\ Config.store_prerun (CommandLine.config inst') = true)
  /\ main Standin.collaborators "eos-scan-mc"
       ["--constraint"; usage_constraint;
        "--scan"; usage_parameter; "0"; "15"; "--prior"; "flat";
        "--partition"; usage_parameter; "0"; "7"; "--partition-index"; "0";
        "--optimize"; "{"; "5"; "}"]
     = ([optimization [5%float]], exited EXIT_SUCCESS).
Proof.
  split; [|vm_compute; reflexivity].
  exists "--prerun-only", (parse_start Standin.collaborators "eos-scan-mc" []).
  split; [discriminate|]. split; [reflexivity|]. split; [reflexivity|].
  intros E a. eexists. split; [reflexivity|]. split; reflexivity.
Qed.

Lemma partition_index_prerun_only_output_witness :
  exists config,
    fst (main single_partition_sampler "eos-scan-mc"
           ["--constraint"; usage_constraint;
            "--scan"; usage_parameter; "0"; "15"; "--prior"; "flat";
            "--partition"; usage_parameter; "0"; "7";
            "--partition"; usage_parameter; "7"; "15"; "--partition-index"; "1"])
    = [sampler_constructed config; sampler_run]
    /\ Config.partitions config = [[(usage_parameter, 7%float, 15%float)]]
    /\ Config.need_main_run config = false
    /\ Config.store_prerun config = true.
Proof.
  eexists. split; [vm_compute; reflexivity|]. split; [reflexivity|].
  edestruct (partition_index_prerun_only_output single_partition_sampler)
    as [_ [_ [_ H]]].
  edestruct (H "eos-scan-mc"
               ["--constraint"; usage_constraint;
                "--scan"; usage_parameter; "0"; "15"; "--prior"; "flat";
                "--partition"; usage_parameter; "0"; "7";
                "--partition"; usage_parameter; "7"; "15"; "--partition-index"; "1"]
               4) as [_ [_ [_ [_ [Hconstructed _]]]]].
  - vm_compute. reflexivity.
  - vm_compute. reflexivity.
  - apply Hconstructed. vm_compute. left. reflexivity.
Defined.

(** ** Point estimation *)

Section Optimize.

Context (E : Collaborators).

(** The starting point of the optimization: the one given, or one sampled
    from the priors, which has a component for each parameter. *)
Lemma starting_point_resolved (inst : CommandLine.t) :
  exists starting_point,
    match CommandLine.starting_point inst with
    | [] => sample_starting_point E (CommandLine.analysis inst)
              (CommandLine.analysis inst) (time E) []
    | _ :: _ => Ok (CommandLine.starting_point inst)
    end = Ok starting_point
    /\ (CommandLine.starting_point inst <> [] ->
        starting_point = CommandLine.starting_point inst)
    /\ (CommandLine.starting_point inst = [] ->
        length starting_point = length (CommandLine.analysis inst)).
Proof.
  destruct (CommandLine.starting_point inst) as [|x given] eqn:Hgiven.
  - destruct (sample_starting_point_length E (CommandLine.analysis inst)
                (CommandLine.analysis inst) (time E) []) as [sampled [Hs Hlen]];
      [apply incl_refl|].
    exists sampled. split; [exact Hs|]. split; [congruence|]. intros _. exact Hlen.
  - exists (x :: given). split; [reflexivity|]. split; [reflexivity | discriminate].
Qed.

End Optimize.

(** C8, as the code has it.  A run with the optimize option never constructs
    or runs the sampler.  It fails with a usage error when neither an input
    nor a constraint was given, and when the given starting point does not
    have one component for each parameter of the analysis; otherwise it
    calls the optimizer on the starting point (the given one, or one sampled
    from the priors) and, when that returns, the goodness of fit at the
    minimum found if it was asked for without a point of its own, and exits
    successfully. *)
Theorem optimize_never_samples
  (E : Collaborators) (argv0 : string) (args : list string) (inst : CommandLine.t) :
  parse E argv0 args = Ok inst ->
  CommandLine.optimize inst = true ->
  let ana := CommandLine.analysis inst in
  let at_mode :=
    CommandLine.goodness_of_fit inst
    && match CommandLine.best_fit_point inst with [] => true | _ :: _ => false end in
  no_sampler_event (main E argv0 args)
  /\ (CommandLine.inputs inst = [] -> CommandLine.constraints inst = [] ->
      main E argv0 args
      = ([usage_printed "No inputs, constraints nor build output specified"],
         exited EXIT_FAILURE))
  /\ (CommandLine.inputs inst <> [] \/ CommandLine.constraints inst <> [] ->
      exists starting_point,
        (CommandLine.starting_point inst <> [] ->
         starting_point = CommandLine.starting_point inst)
        /\ (CommandLine.starting_point inst = [] -> length starting_point = length ana)
        /\ (length starting_point <> length ana ->
            main E argv0 args
            = ([usage_printed ("Starting point size of"
                               ++ stringify (N.of_nat (length starting_point))
                               ++ " doesn't match with analysis size of "
                               ++ stringify (N.of_nat (length ana)))],
               exited EXIT_FAILURE))
        /\ (length starting_point = length ana ->
            forall ret,
              optimize_minuit E ana starting_point = Ok ret ->
              (at_mode = false ->
               main E argv0 args = ([optimization starting_point], exited EXIT_SUCCESS))
              /\ (at_mode = true ->
                  Analysis_goodness_of_fit E ana ret None = Ok tt ->
                  main E argv0 args
                  = ([optimization starting_point; goodness_of_fit_computation ret],
                     exited EXIT_SUCCESS)))).
Proof.
  intros Hparse Hopt ana at_mode. subst ana. rewrite (main_parsed E _ _ _ Hparse).
  split; [|split].
  - unfold run, main_body.
    destruct (CommandLine.inputs inst), (CommandLine.constraints inst).
    1: intros ev Hin; cbn in Hin; intuition (subst; reflexivity).
    all: rewrite Hopt; apply run_optimize_no_sampler.
  - intros Hinputs Hconstraints. unfold run, main_body.
    now rewrite Hinputs, Hconstraints.
  - intros Hgiven.
    assert (Hrun : run E inst = handlers (run_optimize E inst)).
    { unfold run, main_body. rewrite Hopt.
      destruct (CommandLine.inputs inst), (CommandLine.constraints inst);
        try reflexivity.
      destruct Hgiven as [Hgiven | Hgiven]; now contradiction Hgiven. }
    destruct (starting_point_resolved E inst) as [starting_point [Hsp [Hsame Hsampled]]].
    exists starting_point. split; [exact Hsame|]. split; [exact Hsampled|].
    rewrite Hrun. unfold run_optimize. cbv zeta. rewrite Hsp.
    unfold silent. cbn [tbind].
    split.
    + intros Hlen. destruct (negb _) eqn:Hneg; [reflexivity|].
      exfalso. apply Hlen, Nat.eqb_eq. apply negb_false_iff in Hneg. exact Hneg.
    + intros Hlen ret Hret. destruct (negb _) eqn:Hneg.
      { exfalso. apply negb_true_iff in Hneg.
        apply (proj1 (Nat.eqb_neq _ _) Hneg). exact Hlen. }
      unfold call. rewrite Hret. cbn [tbind]. fold at_mode.
      split.
      * intros ->. reflexivity.
      * intros -> Hfit. rewrite Hfit. reflexivity.
Qed.

Lemma optimize_never_samples_witness :
  main Standin.collaborators "eos-scan-mc"
    ["--constraint"; usage_constraint; "--scan"; usage_parameter; "0"; "10"; "--prior"; "flat";
     "--optimize"; "{"; "5"; "}"; "--goodness-of-fit"; "--debug"]
  = ([optimization [5%float]; goodness_of_fit_computation [5%float]], exited EXIT_SUCCESS).
Proof.
  edestruct (optimize_never_samples Standin.collaborators "eos-scan-mc"
               ["--constraint"; usage_constraint; "--scan"; usage_parameter; "0"; "10"; "--prior"; "flat";
                "--optimize"; "{"; "5"; "}"; "--goodness-of-fit"; "--debug"])
    as [_ [_ H]].
  - vm_compute. reflexivity.
  - reflexivity.
  - destruct H as [starting_point [Hsame [_ [_ H]]]].
    + right. discriminate.
    + assert (Hsp : starting_point = [5%float]) by (apply Hsame; discriminate).
      subst starting_point.
      destruct (H eq_refl [5%float] eq_refl) as [_ Hfit].
      exact (Hfit eq_refl eq_refl).
Defined.

(** C8 as stated fails: a run with the optimize option whose starting point
    has two components, for an analysis of one parameter, performs no
    optimization and fails with a usage error. *)
Lemma optimize_run_rejects_starting_point :
  exists inst,
    parse Standin.collaborators "eos-scan-mc"
      ["--constraint"; usage_constraint;
       "--scan"; usage_parameter; "0"; "15"; "--prior"; "flat";
       "--optimize"; "{"; "1"; "2"; "}"] = Ok inst
    /\ CommandLine.optimize inst = true
    /\ main Standin.collaborators "eos-scan-mc"
         ["--constraint"; usage_constraint;
          "--scan"; usage_parameter; "0"; "15"; "--prior"; "flat";
          "--optimize"; "{"; "1"; "2"; "}"]
       = ([usage_printed "Starting point size of2 doesn't match with analysis size of 1"],
          exited EXIT_FAILURE).
Proof.
  eexists. split; [vm_compute; reflexivity|].
  split; reflexivity.
Qed.

(** * More of the command line *)

(** ** Words that are no option *)

Section Unknown.

Context (E : Collaborators).

Lemma unknown_argument (argument : string) (a : list string) (inst : CommandLine.t) :
  ~ In argument options ->
  parse_argument E argument a inst
  = Throw (DoUsage ("Unknown command line argument: " ++ argument)).
Proof.
  intros Hno. unfold options in Hno.
  repeat match type of Hno with
         | ~ In _ (_ :: _) =>
             let Hne := fresh "Hne" in
             apply not_in_cons in Hno as [Hne Hno];
             apply String.eqb_neq in Hne
         end.
  unfold parse_argument.
  repeat match goal with
         | H : (argument =? _) = false |- _ => rewrite H; clear H
         end.
  reflexivity.
Qed.

End Unknown.

(** X1.  A word that the loop meets where an option is due and that is none
    of its options is a usage error naming the word: the run prints it and
    fails, with nothing else done. *)
Theorem unknown_argument_rejected
  (E : Collaborators) (argv0 : string) (args : list string) (k : nat)
  (inst : CommandLine.t) (argument : string) (a : list string) :
  parse_turns E k args (parse_start E argv0 args) = Ok (inst, argument :: a) ->
  ~ In argument options ->
  main E argv0 args
  = ([usage_printed ("Unknown command line argument: " ++ argument)], exited EXIT_FAILURE).
Proof.
  intros Hk Hno. apply main_usage.
  apply (parse_throws E argv0 args k inst argument a _ Hk).
  now apply unknown_argument.
Qed.

Lemma unknown_argument_rejected_witness :
  main Standin.collaborators "eos-scan-mc"
    ["--constraint"; usage_constraint; "--chunksize"; "500"]
  = ([usage_printed "Unknown command line argument: --chunksize"], exited EXIT_FAILURE).
Proof.
  eapply (unknown_argument_rejected Standin.collaborators "eos-scan-mc"
            ["--constraint"; usage_constraint; "--chunksize"; "500"] 1
            _ "--chunksize" ["500"]).
  - vm_compute. reflexivity.
  - cbn. intuition discriminate.
Defined.

(** ** Runs without inputs, goodness-of-fit runs, mode finding *)

(** The option at hand is not the one excluded. *)
Ltac other_option :=
  exfalso;
  match goal with
  | Heq : (?argument =? ?name) = true, Hne : ?argument <> ?name |- _ =>
      apply Hne; now apply String.eqb_eq
  end.

(** A field that the option at hand does not assign. *)
Ltac field_kept :=
  repeat match goal with
         | |- context [if ?b then _ else _] => destruct b
         end;
  simpl in *; try reflexivity; try assumption; try congruence.

Section Inputs.

Context (E : Collaborators).

Lemma turn_keeps_no_inputs argument a inst inst' rest :
  argument <> "--observable" ->
  argument <> "--constraint" ->
  CommandLine.inputs inst = [] /\ CommandLine.constraints inst = [] ->
  parse_argument E argument a inst = Ok (inst', rest) ->
  CommandLine.inputs inst' = [] /\ CommandLine.constraints inst' = [].
Proof.
  intros Hobs Hcon [Hin Hc] H. which_option H. all: returned.
  all: try other_option.
  all: split; field_kept.
Qed.

Lemma reports_only (m : traced exit_status) :
  (forall ev, In ev (fst m) -> is_report ev = true) ->
  (forall status, snd m <> Ok status) ->
  (forall ev, In ev (fst (handlers m)) -> is_report ev = true)
  /\ snd (handlers m) <> exited EXIT_SUCCESS.
Proof.
  destruct m as [trace [status | [what|what|what] | |]]; cbn [fst snd handlers];
    intros Htrace Hthrows.
  1: now contradiction (Hthrows status).
  1-3: split; [|discriminate]; intros ev Hin; apply in_app_or in Hin as [Hin | Hin];
       [ now apply Htrace | cbn in Hin; intuition (subst; reflexivity) ].
  all: split; [exact Htrace | discriminate].
Qed.

End Inputs.

(** X2.  A command line on which neither [--observable] nor [--constraint]
    occurs never gets to work: whatever else it holds, the run calls neither
    the optimizer nor the goodness of fit nor the sampler; all it may do is
    report a failure, and it does not exit successfully. *)
Theorem nothing_runs_without_inputs
  (E : Collaborators) (argv0 : string) (args : list string) :
  ~ In "--observable" args ->
  ~ In "--constraint" args ->
  (forall ev, In ev (fst (main E argv0 args)) -> is_report ev = true)
  /\ snd (main E argv0 args) <> exited EXIT_SUCCESS.
Proof.
  intros Hobs Hcon. unfold main.
  destruct (parse E argv0 args) as [inst| e | |] eqn:Hparse; unfold silent; cbn [tbind].
  - assert (Hnone : CommandLine.inputs inst = [] /\ CommandLine.constraints inst = []).
    { apply (parse_from_invariant E
               (fun inst => CommandLine.inputs inst = [] /\ CommandLine.constraints inst = [])
               (fun word => word <> "--observable" /\ word <> "--constraint"))
        with (4 := Hparse).
      - intros argument a inst0 inst1 rest [H1 H2] HP Hturn.
        exact (turn_keeps_no_inputs E _ _ _ _ _ H1 H2 HP Hturn).
      - apply Forall_forall. intros word Hin. split; intros ->; auto.
      - split; reflexivity. }
    destruct Hnone as [Hin Hc]. unfold main_body. rewrite Hin, Hc.
    cbn. split; [|discriminate]. intros ev [<- | []]. reflexivity.
  - apply reports_only; cbn; [intros ev [] | discriminate].
  - apply reports_only; cbn; [intros ev [] | discriminate].
  - apply reports_only; cbn; [intros ev [] | discriminate].
Qed.

Lemma nothing_runs_without_inputs_witness :
  main Standin.collaborators "eos-scan-mc"
    ["--scan"; usage_parameter; "0"; "15"; "--prior"; "flat"; "--optimize"; "--chains"; "2"]
  = ([usage_printed "No inputs, constraints nor build output specified"],
     exited EXIT_FAILURE)
  /\ snd (main Standin.collaborators "eos-scan-mc"
            ["--scan"; usage_parameter; "0"; "15"; "--prior"; "flat"; "--optimize";
             "--chains"; "2"])
     <> exited EXIT_SUCCESS.
Proof.
  split; [vm_compute; reflexivity|].
  apply (nothing_runs_without_inputs Standin.collaborators "eos-scan-mc"
           ["--scan"; usage_parameter; "0"; "15"; "--prior"; "flat"; "--optimize";
            "--chains"; "2"]).
  - cbn. intuition discriminate.
  - cbn. intuition discriminate.
Defined.

(** X3.  A goodness-of-fit run that is no point estimation never constructs
    or runs the sampler, whatever partition is asked for; with an input or a
    constraint it computes the goodness of fit at the best-fit point given,
    with the output file, and exits successfully when that returns. *)
Theorem goodness_of_fit_run
  (E : Collaborators) (argv0 : string) (args : list string) (inst : CommandLine.t) :
  parse E argv0 args = Ok inst ->
  CommandLine.optimize inst = false ->
  CommandLine.goodness_of_fit inst = true ->
  no_sampler_event (main E argv0 args)
  /\ (CommandLine.inputs inst <> [] \/ CommandLine.constraints inst <> [] ->
      Analysis_goodness_of_fit E (CommandLine.analysis inst)
        (CommandLine.best_fit_point inst)
        (Some (Config.output_file (CommandLine.config inst))) = Ok tt ->
      main E argv0 args
      = ([goodness_of_fit_computation (CommandLine.best_fit_point inst)],
         exited EXIT_SUCCESS)).
Proof.
  intros Hparse Hopt Hgof. rewrite (main_parsed E _ _ _ Hparse).
  unfold run, main_body. rewrite Hopt, Hgof. split.
  - destruct (CommandLine.inputs inst), (CommandLine.constraints inst).
    1: intros ev Hin; cbn in Hin; intuition (subst; reflexivity).
    all: unfold call;
      destruct (Analysis_goodness_of_fit E _ _ _) as [[]| [what|what|what] | |];
      intros ev Hin; cbn in Hin; intuition (subst; reflexivity).
  - intros Hgiven Hfit. unfold call. rewrite Hfit.
    destruct (CommandLine.inputs inst), (CommandLine.constraints inst);
      try reflexivity.
    destruct Hgiven as [Hgiven | Hgiven]; now contradiction Hgiven.
Qed.

Lemma goodness_of_fit_run_witness :
  main Standin.collaborators "eos-scan-mc"
    ["--constraint"; usage_constraint;
     "--scan"; usage_parameter; "0"; "15"; "--prior"; "flat";
     "--partition-index"; "3"; "--goodness-of-fit"; "{"; "5"; "}"]
  = ([goodness_of_fit_computation [5%float]], exited EXIT_SUCCESS).
Proof.
  edestruct (goodness_of_fit_run Standin.collaborators "eos-scan-mc"
               ["--constraint"; usage_constraint;
                "--scan"; usage_parameter; "0"; "15"; "--prior"; "flat";
                "--partition-index"; "3"; "--goodness-of-fit"; "{"; "5"; "}"])
    as [_ H].
  - vm_compute. reflexivity.
  - reflexivity.
  - reflexivity.
  - apply H; [right; discriminate | reflexivity].
Defined.

(** X4.  In a run of the sampler with massive mode finding, [sampler.run()]
    is never called: the sampler is constructed, the mode finding runs on
    it, and [main] returns successfully when both return. *)
Theorem mode_finding_replaces_sampling
  (E : Collaborators) (argv0 : string) (args : list string) (inst : CommandLine.t) :
  parse E argv0 args = Ok inst ->
  CommandLine.massive_mode_finding inst = true ->
  (forall ev, In ev (fst (main E argv0 args)) -> ev <> sampler_run)
  /\ (CommandLine.optimize inst = false ->
      CommandLine.goodness_of_fit inst = false ->
      CommandLine.inputs inst <> [] \/ CommandLine.constraints inst <> [] ->
      CommandLine.partition_index inst = None ->
      let config := CommandLine.config inst in
      MarkovChainSampler_new E (CommandLine.analysis inst) config = Ok tt ->
      massive_mode_finding_run E (CommandLine.analysis inst) config
        (CommandLine.massive_maximum_iterations inst) (Config.need_prerun config) = Ok tt ->
      main E argv0 args
      = ([sampler_constructed config; mode_finding_run], exited EXIT_SUCCESS)).
Proof.
  intros Hparse Hmassive. rewrite (main_parsed E _ _ _ Hparse). split.
  - intros ev Hin ->. unfold run, main_body in Hin.
    destruct (CommandLine.inputs inst), (CommandLine.constraints inst);
      try (cbn in Hin; intuition discriminate).
    all: destruct (CommandLine.optimize inst);
      [ now apply (run_optimize_no_sampler E inst) in Hin |].
    all: destruct (CommandLine.goodness_of_fit inst);
      [ unfold call in Hin;
        destruct (Analysis_goodness_of_fit E _ _ _) as [[]| [what|what|what] | |];
        cbn in Hin; intuition discriminate |].
    all: unfold run_sampler, silent, call in Hin; rewrite Hmassive in Hin;
      destruct (match CommandLine.partition_index inst with
                | Some i => _ | None => _ end) as [config| [what|what|what] | |];
      cbn [tbind] in Hin; try (cbn in Hin; intuition discriminate);
      destruct (MarkovChainSampler_new E _ config) as [[]| [what|what|what] | |];
      cbn [tbind] in Hin; try (cbn in Hin; intuition discriminate);
      destruct (massive_mode_finding_run E _ config _ _) as [[]| [what|what|what] | |];
      cbn in Hin; intuition discriminate.
  - intros Hopt Hgof Hgiven Hindex config Hnew Hfind.
    unfold run, main_body. rewrite Hopt, Hgof.
    unfold run_sampler, silent, call. rewrite Hindex, Hmassive. cbn [tbind].
    fold config. rewrite Hnew. cbn [tbind]. rewrite Hfind.
    destruct (CommandLine.inputs inst), (CommandLine.constraints inst);
      try reflexivity.
    destruct Hgiven as [Hgiven | Hgiven]; now contradiction Hgiven.
Qed.

Lemma mode_finding_replaces_sampling_witness :
  map is_sampler_event
    (fst (main Standin.collaborators "eos-scan-mc"
            ["--constraint"; usage_constraint;
             "--scan"; usage_parameter; "0"; "15"; "--prior"; "flat";
             "--massive-mode-finding"; "500"]))
  = [true; true]
  /\ forall ev,
      In ev (fst (main Standin.collaborators "eos-scan-mc"
                    ["--constraint"; usage_constraint;
                     "--scan"; usage_parameter; "0"; "15"; "--prior"; "flat";
                     "--massive-mode-finding"; "500"])) ->
      ev <> sampler_run.
Proof.
  split; [vm_compute; reflexivity|].
  edestruct (mode_finding_replaces_sampling Standin.collaborators "eos-scan-mc"
               ["--constraint"; usage_constraint;
                "--scan"; usage_parameter; "0"; "15"; "--prior"; "flat";
                "--massive-mode-finding"; "500"]) as [H _].
  - vm_compute. reflexivity.
  - reflexivity.
  - exact H.
Defined.

(** ** The bounds and the prior of a parameter *)

(** X5.  What the bounds part of [--scan] and [--nuisance] makes of its three
    formats, the range check having accepted the default of no sigmas:
    a) [PAR N --prior] leaves the bounds at the largest doubles and holds
    [N] sigmas, b) [PAR MIN MAX --prior] holds the bounds and no sigmas,
    c) [PAR MIN MAX N --prior] holds the bounds and [N] sigmas; and a
    number of sigmas that the range check accepts but that is zero is a
    usage error in a) and c). *)
Theorem scan_bounds_formats
  (E : Collaborators) (none : float) (name w1 w2 w3 : string) (rest : list string) :
  VerifiedRange E 0 10 0 = Ok none ->
  (forall n,
      VerifiedRange E 0 10 (destringify_double E w1) = Ok n ->
      scan_bounds E (name :: w1 :: "--prior" :: rest)
      = if (n =? 0)%float
        then Throw (DoUsage "number of sigmas: number expected")
        else Ok (name, (- double_max)%float, double_max, n, rest))
  /\ (w2 <> "--prior" ->
      scan_bounds E (name :: w1 :: w2 :: "--prior" :: rest)
      = Ok (name, destringify_double E w1, destringify_double E w2, none, rest))
  /\ (w2 <> "--prior" -> w3 <> "--prior" ->
      forall n,
        VerifiedRange E 0 10 (destringify_double E w3) = Ok n ->
        scan_bounds E (name :: w1 :: w2 :: w3 :: "--prior" :: rest)
        = if (n =? 0)%float
          then Throw (DoUsage "number of sigmas: number expected")
          else Ok (name, destringify_double E w1, destringify_double E w2, n, rest)).
Proof.
  intros Hnone. split; [|split].
  - intros n Hn. unfold scan_bounds. cbn [next bind]. rewrite Hnone. cbn [bind].
    change ("--prior" =? "--prior") with true. cbn [bind]. rewrite Hn. cbn [bind].
    destruct (n =? 0)%float; reflexivity.
  - intros H2. apply String.eqb_neq in H2.
    unfold scan_bounds. cbn [next bind]. rewrite Hnone. cbn [bind].
    rewrite H2. cbn [next bind]. reflexivity.
  - intros H2 H3 n Hn. apply String.eqb_neq in H2, H3.
    unfold scan_bounds. cbn [next bind]. rewrite Hnone. cbn [bind].
    rewrite H2. cbn [next bind]. rewrite H3. cbn [negb]. rewrite Hn. cbn [bind].
    destruct (n =? 0)%float; reflexivity.
Qed.

Lemma scan_bounds_formats_witness :
  scan_bounds Standin.collaborators [usage_parameter; "0"; "15"; "--prior"; "flat"]
  = Ok (usage_parameter, 0%float, 15%float, 0%float, ["flat"]).
Proof.
  destruct (scan_bounds_formats Standin.collaborators 0 usage_parameter "0" "15" "15"
              ["flat"]) as [_ [H _]].
  - vm_compute. reflexivity.
  - vm_compute in H. apply H. discriminate.
Defined.

(** X6.  When [--scan] or [--nuisance] is followed by a name and three words
    of which neither the second nor the third is [--prior], the third is
    taken for the number of sigmas.  If the range check accepts it and it is
    zero, the run fails with the usage error that a number of sigmas was
    expected; if it is accepted and not zero, and the word after it is not
    [--prior] either, the run fails with the usage error about the prior
    specification of the parameter; in both cases nothing else is done.  If
    it is accepted and not zero and no word comes after it, the option runs
    into the end of [argv]. *)
Theorem prior_keyword_missing
  (E : Collaborators) (argv0 : string) (args : list string) (k : nat)
  (inst : CommandLine.t) (argument name w1 w2 w3 : string) (tail : list string)
  (none n : float) :
  parse_turns E k args (parse_start E argv0 args)
  = Ok (inst, argument :: name :: w1 :: w2 :: w3 :: tail) ->
  argument = "--scan" \/ argument = "--nuisance" ->
  w2 <> "--prior" -> w3 <> "--prior" ->
  VerifiedRange E 0 10 0 = Ok none ->
  VerifiedRange E 0 10 (destringify_double E w3) = Ok n ->
  ((n =? 0)%float = true ->
   main E argv0 args
   = ([usage_printed "number of sigmas: number expected"], exited EXIT_FAILURE))
  /\ ((n =? 0)%float = false ->
      forall w4 rest,
        tail = w4 :: rest -> w4 <> "--prior" ->
        main E argv0 args
        = ([usage_printed ("Missing correct prior specification for '" ++ name ++ "'!")],
           exited EXIT_FAILURE))
  /\ ((n =? 0)%float = false -> tail = [] ->
      main E argv0 args = ([], undefined_behaviour)).
Proof.
  intros Hk Harg H2 H3 Hnone Hn.
  apply String.eqb_neq in H2, H3.
  assert (Hbounds :
            scan_bounds E (name :: w1 :: w2 :: w3 :: tail)
            = if (n =? 0)%float
              then Throw (DoUsage "number of sigmas: number expected")
              else
                '(keyword, a) <- next tail ;;
                if negb (keyword =? "--prior")
                then Throw (DoUsage ("Missing correct prior specification for '"
                                     ++ name ++ "'!"))
                else Ok (name, destringify_double E w1, destringify_double E w2, n, a)).
  { unfold scan_bounds. cbn [next bind]. rewrite Hnone. cbn [bind].
    rewrite H2. cbn [next bind]. rewrite H3. cbn [negb]. rewrite Hn. cbn [bind].
    destruct (n =? 0)%float; [reflexivity|].
    destruct tail as [|keyword a]; reflexivity. }
  split; [|split].
  - intros Hzero. apply main_usage.
    apply (parse_throws E argv0 args k inst _ _ _ Hk).
    rewrite (parse_scan_at E argument Harg). unfold parse_scan.
    now rewrite Hbounds, Hzero.
  - intros Hzero w4 rest -> H4. apply String.eqb_neq in H4.
    apply main_usage. apply (parse_throws E argv0 args k inst _ _ _ Hk).
    rewrite (parse_scan_at E argument Harg). unfold parse_scan.
    rewrite Hbounds, Hzero. cbn [next bind]. now rewrite H4.
  - intros Hzero ->. unfold main, parse.
    rewrite (parse_from_turns E k _ _ _ _ Hk), parse_from_cons.
    rewrite (parse_scan_at E argument Harg). unfold parse_scan.
    now rewrite Hbounds, Hzero.
Qed.

Lemma prior_keyword_missing_witness :
  main Standin.collaborators "eos-scan-mc"
    ["--scan"; usage_parameter; "0"; "15"; "flat"]
  = ([usage_printed "number of sigmas: number expected"], exited EXIT_FAILURE)
  /\ main Standin.collaborators "eos-scan-mc"
       ["--scan"; usage_parameter; "0"; "15"; "2"; "flat"; "--chains"; "2"]
     = ([usage_printed "Missing correct prior specification for 'Abs{c9}'!"],
        exited EXIT_FAILURE).
Proof.
  split.
  - edestruct (prior_keyword_missing Standin.collaborators "eos-scan-mc"
                 ["--scan"; usage_parameter; "0"; "15"; "flat"] 0
                 (parse_start Standin.collaborators "eos-scan-mc"
                    ["--scan"; usage_parameter; "0"; "15"; "flat"])
                 "--scan" usage_parameter "0" "15" "flat" [] 0 0) as [H _].
    + reflexivity.
    + left. reflexivity.
    + discriminate.
    + discriminate.
    + vm_compute. reflexivity.
    + vm_compute. reflexivity.
    + apply H. vm_compute. reflexivity.
  - edestruct (prior_keyword_missing Standin.collaborators "eos-scan-mc"
                 ["--scan"; usage_parameter; "0"; "15"; "2"; "flat"; "--chains"; "2"] 0
                 (parse_start Standin.collaborators "eos-scan-mc"
                    ["--scan"; usage_parameter; "0"; "15"; "2"; "flat"; "--chains"; "2"])
                 "--scan" usage_parameter "0" "15" "2" ["flat"; "--chains"; "2"] 0 2)
      as [_ [H _]].
    + reflexivity.
    + left. reflexivity.
    + discriminate.
    + discriminate.
    + vm_compute. reflexivity.
    + vm_compute. reflexivity.
    + eapply H; [vm_compute; reflexivity | reflexivity | discriminate].
Defined.

(** X7.  Whatever the prior, the range a parameter is given never leaves the
    hard bounds: each end is the bound or lies inside it; and when no
    positive number of sigmas is held the range is the hard bounds
    themselves.  The prior is made on that range, under the name of the
    parameter and of the kind that was asked for. *)
Theorem range_within_hard_bounds
  (E : Collaborators) (name : string) (min max n : float) (a : list string)
  (prior_type : string) (prior : LogPrior.t) (range : ParameterRange.t)
  (rest : list string) :
  scan_prior E name min max n a = Ok (prior_type, prior, range, rest) ->
  (ParameterRange.min range = min \/ (min <? ParameterRange.min range)%float = true)
  /\ (ParameterRange.max range = max \/ (ParameterRange.max range <? max)%float = true)
  /\ ((0 <? n)%float = false -> range = ParameterRange.mk min max)
  /\ prior_range prior = Some range
  /\ LogPrior.name prior = name
  /\ prior_kind prior = prior_type.
Proof.
  unfold scan_prior. intros H.
  destruct a as [|kind a]; [discriminate H|]. cbn [next bind] in H.
  destruct (kind =? "gaussian") eqn:Hgauss; destruct (kind =? "log-gamma") eqn:Hgamma;
    destruct (kind =? "flat") eqn:Hflat; cbn [orb] in H;
    destruct (0 <? n)%float eqn:Hn; returned.
  all: repeat match goal with
         | H : (_ =? _) = true |- _ => apply String.eqb_eq in H; subst
         end.
  all: cbn [ParameterRange.min ParameterRange.max prior_range LogPrior.name prior_kind].
  all: repeat split; auto using std_max_narrows, std_min_narrows; discriminate.
Qed.

Lemma range_within_hard_bounds_witness :
  exists prior_type prior range rest,
    scan_prior Standin.collaborators "mass::b(MSbar)" 3 5 0 ["gaussian"; "4"; "4"; "5"]
    = Ok (prior_type, prior, range, rest)
    /\ range = ParameterRange.mk 3 5.
Proof.
  eexists. eexists. eexists. eexists.
  assert (Hrun : scan_prior Standin.collaborators "mass::b(MSbar)" 3 5 0
                   ["gaussian"; "4"; "4"; "5"]
                 = Ok ("gaussian",
                       LogPrior.Gauss "mass::b(MSbar)" (ParameterRange.mk 3 5) 4 4 5,
                       ParameterRange.mk 3 5, []))
    by (vm_compute; reflexivity).
  split; [exact Hrun|].
  destruct (range_within_hard_bounds Standin.collaborators _ _ _ _ _ _ _ _ _ Hrun)
    as [_ [_ [H _]]].
  apply H. vm_compute. reflexivity.
Defined.

(** ** Points in braces, partitions, and the end of [argv] *)

(** The loop over a brace list takes the words up to the first closing
    brace, in their order. *)
Lemma read_braced_closed (A : Type) (push : A -> string -> A) (words : list string) :
  forall (rest : list string) (acc : A),
    ~ In "}" words ->
    read_braced push (words ++ "}" :: rest) acc = Ok (fold_left push words acc, rest).
Proof.
  induction words as [|word words IH]; intros rest acc Hno.
  - reflexivity.
  - cbn [app read_braced fold_left].
    destruct ("}" =? word) eqn:Hword.
    + apply String.eqb_eq in Hword. exfalso. apply Hno. now left.
    + apply IH. intros Hin. apply Hno. now right.
Qed.

(** Without a closing brace it runs into the end of [argv]. *)
Lemma read_braced_open (A : Type) (push : A -> string -> A) (words : list string) :
  forall acc : A, ~ In "}" words -> read_braced push words acc = Undefined.
Proof.
  induction words as [|word words IH]; intros acc Hno.
  - reflexivity.
  - cbn [read_braced].
    destruct ("}" =? word) eqn:Hword.
    + apply String.eqb_eq in Hword. exfalso. apply Hno. now left.
    + apply IH. intros Hin. apply Hno. now right.
Qed.

Lemma fold_left_push_double (E : Collaborators) (words : list string) :
  forall point, fold_left (push_double E) words point
                = point ++ map (destringify_double E) words.
Proof.
  induction words as [|word words IH]; intros point; cbn [fold_left map].
  - now rewrite app_nil_r.
  - rewrite IH. unfold push_double. now rewrite <- app_assoc.
Qed.

(** X8.  The starting point of [--optimize] is optional.  A next word that is
    no opening brace is left for the next turn; a brace list adds its
    numbers, in their order, to the starting point held so far; and the
    option as the last word, or a brace list that is not closed, runs into
    the end of [argv]. *)
Theorem optimize_starting_point
  (E : Collaborators) (inst : CommandLine.t) (words rest : list string) (word : string) :
  ~ In "}" words ->
  word <> "{" ->
  parse_argument E "--optimize" (word :: rest) inst
  = Ok (CommandLine.set_optimize true inst, word :: rest)
  /\ parse_argument E "--optimize" ("{" :: words ++ "}" :: rest) inst
     = Ok (CommandLine.set_starting_point
             (CommandLine.starting_point inst ++ map (destringify_double E) words)
             (CommandLine.set_optimize true inst),
           rest)
  /\ parse_argument E "--optimize" [] inst = Undefined
  /\ parse_argument E "--optimize" ("{" :: words) inst = Undefined.
Proof.
  intros Hno Hword.
  change (parse_argument E "--optimize") with (parse_optimize E).
  unfold parse_optimize. cbn [next bind].
  replace ("{" =? word) with false
    by (symmetry; apply String.eqb_neq; congruence).
  change ("{" =? "{") with true. cbn [negb].
  rewrite read_braced_closed, read_braced_open by assumption.
  cbn [bind]. rewrite fold_left_push_double. repeat split.
Qed.

Lemma optimize_starting_point_witness :
  parse_argument Standin.collaborators "--optimize" ["{"; "1"; "2"; "}"; "--debug"]
    (parse_start Standin.collaborators "eos-scan-mc" [])
  = Ok (CommandLine.set_starting_point [1%float; 2%float]
          (CommandLine.set_optimize true
             (parse_start Standin.collaborators "eos-scan-mc" [])),
        ["--debug"]).
Proof.
  destruct (optimize_starting_point Standin.collaborators
              (parse_start Standin.collaborators "eos-scan-mc" [])
              ["1"; "2"] ["--debug"] "--debug") as [_ [H _]].
  - cbn. intuition discriminate.
  - discriminate.
  - exact H.
Defined.

(** X9.  The best-fit point of [--goodness-of-fit] is read the same way: a
    next word that is no opening brace is left for the next turn, a brace
    list adds its numbers to the point held so far, and the end of [argv] is
    run into by the option as the last word and by an unclosed list. *)
Theorem goodness_of_fit_point
  (E : Collaborators) (inst : CommandLine.t) (words rest : list string) (word : string) :
  ~ In "}" words ->
  word <> "{" ->
  parse_argument E "--goodness-of-fit" (word :: rest) inst
  = Ok (CommandLine.set_goodness_of_fit true inst, word :: rest)
  /\ parse_argument E "--goodness-of-fit" ("{" :: words ++ "}" :: rest) inst
     = Ok (CommandLine.set_best_fit_point
             (CommandLine.best_fit_point inst ++ map (destringify_double E) words)
             (CommandLine.set_goodness_of_fit true inst),
           rest)
  /\ parse_argument E "--goodness-of-fit" [] inst = Undefined
  /\ parse_argument E "--goodness-of-fit" ("{" :: words) inst = Undefined.
Proof.
  intros Hno Hword.
  change (parse_argument E "--goodness-of-fit") with (parse_goodness_of_fit E).
  unfold parse_goodness_of_fit. cbn [next bind].
  replace ("{" =? word) with false
    by (symmetry; apply String.eqb_neq; congruence).
  change ("{" =? "{") with true. cbn [negb].
  rewrite read_braced_closed, read_braced_open by assumption.
  cbn [bind]. rewrite fold_left_push_double. repeat split.
Qed.

Lemma goodness_of_fit_point_witness :
  parse_argument Standin.collaborators "--goodness-of-fit" ["--output"; "fit.hdf5"]
    (parse_start Standin.collaborators "eos-scan-mc" [])
  = Ok (CommandLine.set_goodness_of_fit true
          (parse_start Standin.collaborators "eos-scan-mc" []),
        ["--output"; "fit.hdf5"]).
Proof.
  destruct (goodness_of_fit_point Standin.collaborators
              (parse_start Standin.collaborators "eos-scan-mc" [])
              [] ["fit.hdf5"] "--output") as [H _].
  - intros [].
  - discriminate.
  - exact H.
Defined.

Section Unterminated.

Context (E : Collaborators).

Lemma read_partition_unterminated_bounded (n : nat) :
  forall a partition,
    length a <= n ->
    Forall (fun word => is_option word = false) a ->
    read_partition E a partition = Undefined.
Proof.
  induction n as [|n IH]; intros a partition Hn Hall.
  - destruct a; [reflexivity | simpl in Hn; lia].
  - destruct a as [|key a1]; [reflexivity|].
    inversion Hall as [|? ? Hkey Ha1]; subst.
    cbn [read_partition]. rewrite Hkey.
    destruct a1 as [|wmin [|wmax a3]]; try reflexivity.
    apply IH.
    + simpl in Hn. lia.
    + inversion Ha1 as [|? ? _ Ha2]; subst. now inversion Ha2.
Qed.

End Unterminated.

(** X10.  A partition has to be followed by another option: when none of the
    words after [--partition] starts with two dashes, the option runs into
    the end of [argv], and so does the run. *)
Theorem partition_needs_following_option
  (E : Collaborators) (argv0 : string) (args : list string) (k : nat)
  (inst : CommandLine.t) (a : list string) :
  parse_turns E k args (parse_start E argv0 args) = Ok (inst, "--partition" :: a) ->
  Forall (fun word => is_option word = false) a ->
  parse_argument E "--partition" a inst = Undefined
  /\ main E argv0 args = ([], undefined_behaviour).
Proof.
  intros Hk Hall.
  assert (Hturn : parse_argument E "--partition" a inst = Undefined).
  { change (parse_argument E "--partition") with (parse_partition E).
    unfold parse_partition.
    now rewrite (read_partition_unterminated_bounded E (length a)). }
  split; [exact Hturn|].
  unfold main, parse.
  rewrite (parse_from_turns E k _ _ _ _ Hk), parse_from_cons, Hturn. reflexivity.
Qed.

Lemma partition_needs_following_option_witness :
  main Standin.collaborators "eos-scan-mc"
    ["--constraint"; usage_constraint; "--partition"; usage_parameter; "-1"; "1"]
  = ([], undefined_behaviour).
Proof.
  edestruct (partition_needs_following_option Standin.collaborators "eos-scan-mc"
               ["--constraint"; usage_constraint; "--partition"; usage_parameter; "-1"; "1"]
               1) as [_ H].
  - vm_compute. reflexivity.
  - repeat constructor.
  - exact H.
Defined.

(** X11.  The values of [--discrete] have to come in braces: any other word
    after the name is a usage error, on which the run fails with nothing
    else done; and a brace list that is not closed runs into the end of
    [argv]. *)
Theorem discrete_values_in_braces
  (E : Collaborators) (argv0 : string) (args : list string) (k : nat)
  (inst : CommandLine.t) (name word : string) (rest : list string) :
  parse_turns E k args (parse_start E argv0 args)
  = Ok (inst, "--discrete" :: name :: word :: rest) ->
  (word <> "{" ->
   main E argv0 args
   = ([usage_printed "Put set of discrete values in braces {}"], exited EXIT_FAILURE))
  /\ (word = "{" -> ~ In "}" rest -> main E argv0 args = ([], undefined_behaviour)).
Proof.
  intros Hk. split.
  - intros Hword. apply main_usage.
    apply (parse_throws E argv0 args k inst _ _ _ Hk).
    change (parse_argument E "--discrete") with (parse_discrete E).
    unfold parse_discrete. cbn [next bind].
    replace ("{" =? word) with false
      by (symmetry; apply String.eqb_neq; congruence).
    reflexivity.
  - intros -> Hopen. unfold main, parse.
    rewrite (parse_from_turns E k _ _ _ _ Hk), parse_from_cons.
    change (parse_argument E "--discrete") with (parse_discrete E).
    unfold parse_discrete. cbn [next bind].
    change ("{" =? "{") with true. cbn [negb].
    now rewrite read_braced_open.
Qed.

Lemma discrete_values_in_braces_witness :
  main Standin.collaborators "eos-scan-mc"
    ["--constraint"; usage_constraint; "--discrete"; usage_parameter; "1"; "2"]
  = ([usage_printed "Put set of discrete values in braces {}"], exited EXIT_FAILURE).
Proof.
  edestruct (discrete_values_in_braces Standin.collaborators "eos-scan-mc"
               ["--constraint"; usage_constraint; "--discrete"; usage_parameter; "1"; "2"]
               1) as [H _].
  - vm_compute. reflexivity.
  - apply H. discriminate.
Defined.

(** X12.  [--massive-mode-finding N] with [N] read as zero is a usage error,
    on which the run fails with nothing else done; any other [N] switches
    the mode finding on with [N] as its maximum of iterations. *)
Theorem massive_mode_finding_iterations
  (E : Collaborators) (word : string) (rest : list string) (inst : CommandLine.t) :
  let iterations := destringify_unsigned E word in
  let turn := parse_argument E "--massive-mode-finding" (word :: rest) inst in
  let what := "Need to specify maximum number of Minuit iterations for massive mode finding" in
  (iterations = 0%N -> turn = Throw (DoUsage what))
  /\ (iterations <> 0%N ->
      exists inst',
        turn = Ok (inst', rest)
        /\ CommandLine.massive_mode_finding inst' = true
        /\ CommandLine.massive_maximum_iterations inst' = iterations
        /\ CommandLine.config inst' = CommandLine.config inst)
  /\ (forall argv0 args k,
         parse_turns E k args (parse_start E argv0 args)
         = Ok (inst, "--massive-mode-finding" :: word :: rest) ->
         iterations = 0%N ->
         main E argv0 args = ([usage_printed what], exited EXIT_FAILURE)).
Proof.
  intros iterations turn what.
  assert (Hturn :
            turn = if (iterations =? 0)%N then Throw (DoUsage what)
                   else Ok (CommandLine.set_massive_maximum_iterations iterations
                              (CommandLine.set_massive_mode_finding true inst), rest))
    by reflexivity.
  split; [|split].
  - intros Hzero. now rewrite Hturn, Hzero.
  - intros Hsome. apply N.eqb_neq in Hsome. rewrite Hturn, Hsome.
    eexists. split; [reflexivity|]. repeat split.
  - intros argv0 args k Hk Hzero. apply main_usage.
    apply (parse_throws E argv0 args k inst _ _ _ Hk).
    fold turn. now rewrite Hturn, Hzero.
Qed.

(** ** What the whole loop keeps *)

Section Kept.

Context (E : Collaborators).

(** What a turn does to the fields that the constructor of [CommandLine]
    sets, and to the creator and the partition index. *)
Lemma turn_assigns argument a inst inst' rest :
  parse_argument E argument a inst = Ok (inst', rest) ->
  CommandLine.creator inst' = CommandLine.creator inst
  /\ Config.use_strict_rvalue_definition (CommandLine.config inst')
     = Config.use_strict_rvalue_definition (CommandLine.config inst)
  /\ (argument <> "--chains" ->
      Config.number_of_chains (CommandLine.config inst')
      = Config.number_of_chains (CommandLine.config inst))
  /\ (argument <> "--chunk-size" ->
      Config.chunk_size (CommandLine.config inst')
      = Config.chunk_size (CommandLine.config inst))
  /\ (argument <> "--parallel" ->
      Config.parallelize (CommandLine.config inst')
      = Config.parallelize (CommandLine.config inst))
  /\ (argument <> "--no-prerun" -> argument <> "--resume" ->
      Config.need_prerun (CommandLine.config inst) = true ->
      Config.need_prerun (CommandLine.config inst') = true)
  /\ (argument <> "--partition-index" ->
      CommandLine.partition_index inst' = CommandLine.partition_index inst).
Proof.
  intros H. which_option H. all: returned.
  all: repeat split; intros; try other_option; field_kept.
Qed.

End Kept.

(** X13.  The values that the constructor of [CommandLine] puts over the
    defaults of the sampler are those of the parsed configuration unless
    their option occurs: strict r-values always, since no option assigns
    them; four chains without [--chains]; chunks of a thousand without
    [--chunk-size]; parallel chains without [--parallel]; and a prerun
    without [--no-prerun] and [--resume]. *)
Theorem constructor_defaults_kept
  (E : Collaborators) (argv0 : string) (args : list string) (inst : CommandLine.t) :
  parse E argv0 args = Ok inst ->
  Config.use_strict_rvalue_definition (CommandLine.config inst) = true
  /\ (~ In "--chains" args -> Config.number_of_chains (CommandLine.config inst) = 4%N)
  /\ (~ In "--chunk-size" args -> Config.chunk_size (CommandLine.config inst) = 1000%N)
  /\ (~ In "--parallel" args -> Config.parallelize (CommandLine.config inst) = true)
  /\ (~ In "--no-prerun" args -> ~ In "--resume" args ->
      Config.need_prerun (CommandLine.config inst) = true).
Proof.
  intros Hparse. unfold parse in Hparse.
  split; [|split; [|split; [|split]]].
  - apply (parse_from_invariant E
             (fun inst => Config.use_strict_rvalue_definition (CommandLine.config inst) = true)
             (fun _ => True)) with (4 := Hparse); [| now apply Forall_forall | reflexivity].
    intros argument a inst0 inst1 rest _ HP Hturn.
    destruct (turn_assigns E _ _ _ _ _ Hturn) as [_ [H _]]. congruence.
  - intros Hno.
    apply (parse_from_invariant E
             (fun inst => Config.number_of_chains (CommandLine.config inst) = 4%N)
             (fun word => word <> "--chains")) with (4 := Hparse); [| | reflexivity].
    + intros argument a inst0 inst1 rest Hne HP Hturn.
      destruct (turn_assigns E _ _ _ _ _ Hturn) as [_ [_ [H _]]].
      rewrite (H Hne). exact HP.
    + apply Forall_forall. now intros word Hin ->.
  - intros Hno.
    apply (parse_from_invariant E
             (fun inst => Config.chunk_size (CommandLine.config inst) = 1000%N)
             (fun word => word <> "--chunk-size")) with (4 := Hparse); [| | reflexivity].
    + intros argument a inst0 inst1 rest Hne HP Hturn.
      destruct (turn_assigns E _ _ _ _ _ Hturn) as [_ [_ [_ [H _]]]].
      rewrite (H Hne). exact HP.
    + apply Forall_forall. now intros word Hin ->.
  - intros Hno.
    apply (parse_from_invariant E
             (fun inst => Config.parallelize (CommandLine.config inst) = true)
             (fun word => word <> "--parallel")) with (4 := Hparse); [| | reflexivity].
    + intros argument a inst0 inst1 rest Hne HP Hturn.
      destruct (turn_assigns E _ _ _ _ _ Hturn) as [_ [_ [_ [_ [H _]]]]].
      rewrite (H Hne). exact HP.
    + apply Forall_forall. now intros word Hin ->.
  - intros Hno1 Hno2.
    apply (parse_from_invariant E
             (fun inst => Config.need_prerun (CommandLine.config inst) = true)
             (fun word => word <> "--no-prerun" /\ word <> "--resume"))
      with (4 := Hparse); [| | reflexivity].
    + intros argument a inst0 inst1 rest [Hne1 Hne2] HP Hturn.
      destruct (turn_assigns E _ _ _ _ _ Hturn) as [_ [_ [_ [_ [_ [H _]]]]]].
      exact (H Hne1 Hne2 HP).
    + apply Forall_forall. intros word Hin. split; now intros ->.
Qed.

Lemma constructor_defaults_kept_witness :
  exists inst,
    parse Standin.collaborators "eos-scan-mc"
      ["--constraint"; usage_constraint; "--chunks"; "20"; "--seed"; "12345"] = Ok inst
    /\ Config.number_of_chains (CommandLine.config inst) = 4%N
    /\ Config.number_of_chains (Config_Quick Standin.collaborators) = 1%N.
Proof.
  eexists. split; [vm_compute; reflexivity|]. split; [|reflexivity].
  edestruct (constructor_defaults_kept Standin.collaborators "eos-scan-mc"
               ["--constraint"; usage_constraint; "--chunks"; "20"; "--seed"; "12345"])
    as [_ [H _]].
  - vm_compute. reflexivity.
  - apply H. cbn. intuition discriminate.
Defined.

(** Appending strings is associative. *)
Lemma append_assoc (s t u : string) : (s ++ (t ++ u))%string = ((s ++ t) ++ u)%string.
Proof. induction s as [|c s IH]; cbn; [reflexivity | now rewrite IH]. Qed.

Lemma creator_of_concat (args : list string) :
  forall argv0, creator_of argv0 args = String.concat " " (argv0 :: args).
Proof.
  induction args as [|arg args IH]; intros argv0.
  - reflexivity.
  - unfold creator_of. cbn [fold_left]. fold (creator_of (argv0 ++ String " " arg) args).
    rewrite IH.
    change (String " " arg) with (" " ++ arg)%string.
    destruct args as [|arg' args].
    + reflexivity.
    + cbn [String.concat]. now rewrite <- !append_assoc.
Qed.

(** X14.  The creator that [parse] records is the command line as it was
    given: [argv[0]] and all arguments, joined by single blanks; no option
    changes it. *)
Theorem creator_is_command_line
  (E : Collaborators) (argv0 : string) (args : list string) (inst : CommandLine.t) :
  parse E argv0 args = Ok inst ->
  CommandLine.creator inst = String.concat " " (argv0 :: args).
Proof.
  intros Hparse. unfold parse in Hparse. rewrite <- creator_of_concat.
  apply (parse_from_invariant E
           (fun inst => CommandLine.creator inst = creator_of argv0 args)
           (fun _ => True)) with (4 := Hparse); [| now apply Forall_forall | reflexivity].
  intros argument a inst0 inst1 rest _ HP Hturn.
  destruct (turn_assigns E _ _ _ _ _ Hturn) as [H _]. congruence.
Qed.

Lemma creator_is_command_line_witness :
  exists inst,
    parse Standin.collaborators "eos-scan-mc"
      ["--constraint"; usage_constraint; "--chains"; "2"] = Ok inst
    /\ CommandLine.creator inst
       = "eos-scan-mc --constraint B^0->K^*0gamma::BR@BaBar-2009 --chains 2".
Proof.
  eexists. split; [vm_compute; reflexivity|].
  rewrite (creator_is_command_line Standin.collaborators "eos-scan-mc"
             ["--constraint"; usage_constraint; "--chains"; "2"]).
  - reflexivity.
  - vm_compute. reflexivity.
Defined.

(** X15.  On a command line without [--partition-index] no partition is
    selected: no index is held, and the only configuration the sampler is
    ever constructed on is the parsed one, with all the declared
    partitions. *)
Theorem without_index_all_partitions
  (E : Collaborators) (argv0 : string) (args : list string) (inst : CommandLine.t) :
  ~ In "--partition-index" args ->
  parse E argv0 args = Ok inst ->
  CommandLine.partition_index inst = None
  /\ forall config,
      In (sampler_constructed config) (fst (main E argv0 args)) ->
      config = CommandLine.config inst.
Proof.
  intros Hno Hparse.
  assert (Hnone : CommandLine.partition_index inst = None).
  { unfold parse in Hparse.
    apply (parse_from_invariant E
             (fun inst => CommandLine.partition_index inst = None)
             (fun word => word <> "--partition-index")) with (4 := Hparse);
      [| | reflexivity].
    - intros argument a inst0 inst1 rest Hne HP Hturn.
      destruct (turn_assigns E _ _ _ _ _ Hturn) as [_ [_ [_ [_ [_ [_ H]]]]]].
      rewrite (H Hne). exact HP.
    - apply Forall_forall. now intros word Hin ->. }
  split; [exact Hnone|].
  intros config Hin. rewrite (main_parsed E _ _ _ Hparse) in Hin.
  assert (Hsel : match CommandLine.partition_index inst with
                 | Some i => select_partition i (CommandLine.config inst)
                 | None => Ok (CommandLine.config inst)
                 end = Ok (CommandLine.config inst)) by now rewrite Hnone.
  destruct (run_sampler_constructs E inst _ Hsel) as [tail [Htrace Htail]].
  unfold run, main_body in Hin.
  destruct (CommandLine.inputs inst), (CommandLine.constraints inst);
    try (cbn in Hin; intuition discriminate).
  all: destruct (CommandLine.optimize inst);
    [ now apply (no_sampler_event_constructed _ config (run_optimize_no_sampler E inst)) in Hin |].
  all: destruct (CommandLine.goodness_of_fit inst);
    [ unfold call in Hin;
      destruct (Analysis_goodness_of_fit E _ _ _) as [[]| [what|what|what] | |];
      cbn in Hin; intuition discriminate |].
  all: rewrite Htrace in Hin; destruct Hin as [Hin | Hin];
    [ now inversion Hin | now apply Htail in Hin ].
Qed.

Lemma without_index_all_partitions_witness :
  exists inst,
    parse Standin.collaborators "eos-scan-mc"
      ["--constraint"; usage_constraint;
       "--partition"; usage_parameter; "0"; "7";
       "--partition"; usage_parameter; "7"; "15"; "--chains"; "2"] = Ok inst
    /\ CommandLine.partition_index inst = None
    /\ length (Config.partitions (CommandLine.config inst)) = 2.
Proof.
  eexists. split; [vm_compute; reflexivity|].
  edestruct (without_index_all_partitions Standin.collaborators "eos-scan-mc"
               ["--constraint"; usage_constraint;
                "--partition"; usage_parameter; "0"; "7";
                "--partition"; usage_parameter; "7"; "15"; "--chains"; "2"]) as [H _].
  - cbn. intuition discriminate.
  - vm_compute. reflexivity.
  - split; [exact H | reflexivity].
Defined.

(** X19.  The loop advances: the words a turn leaves are a tail of the words
    after its option, although some options step back over a word they have
    looked at; so [parse] is done within as many turns as there are words,
    and more turns change nothing. *)
Theorem parse_advances (E : Collaborators) :
  (forall argument a inst inst' rest,
      parse_argument E argument a inst = Ok (inst', rest) ->
      exists consumed, a = consumed ++ rest)
  /\ (forall turns a inst,
         length a <= turns ->
         parse_loop E turns a inst = Some (parse_from E a inst)).
Proof.
  split.
  - intros argument a inst inst' rest H. exact (parse_argument_suffix E _ _ _ _ _ H).
  - intros turns a inst Hturns.
    rewrite (parse_loop_turns_irrelevant E turns (length a)) by lia.
    apply parse_from_loop.
Qed.

(** ** The analysis and what is recorded beside it *)

(** A prior that the analysis has, it still has after one more was added. *)
Lemma log_prior_grows (ana : Analysis) (d : ParameterDescription.t) (name : string) :
  log_prior ana name <> None -> log_prior (ana ++ [d]) name <> None.
Proof.
  unfold log_prior. intros Hfound.
  destruct (find _ ana) as [found|] eqn:Hfind; [|now contradiction Hfound].
  apply find_some in Hfind as [Hin Hname].
  destruct (find _ (ana ++ [d])) as [found'|] eqn:Hfind'; [discriminate|].
  assert (Hnot : (LogPrior.name (ParameterDescription.prior found) =? name) = false).
  { apply (find_none _ _ Hfind' found). apply in_or_app. now left. }
  congruence.
Qed.

Section Analysis.

Context (E : Collaborators).

(** The analysis only grows, by one description at a time, and the list of
    blocked parameters only by a name that has a prior. *)
Lemma turn_blocks argument a inst inst' rest :
  parse_argument E argument a inst = Ok (inst', rest) ->
  (CommandLine.analysis inst' = CommandLine.analysis inst
   \/ exists d, CommandLine.analysis inst' = CommandLine.analysis inst ++ [d])
  /\ (Config.block_proposal_parameters (CommandLine.config inst')
      = Config.block_proposal_parameters (CommandLine.config inst)
      \/ exists name,
          log_prior (CommandLine.analysis inst') name <> None
          /\ Config.block_proposal_parameters (CommandLine.config inst')
             = Config.block_proposal_parameters (CommandLine.config inst) ++ [name]).
Proof.
  intros H. which_option H. all: returned.
  all: repeat match goal with
         | |- context [if ?b then _ else _] => destruct b
         end.
  all: cbn [CommandLine.analysis CommandLine.config with_config CommandLine.set_config
            CommandLine.set_parameters CommandLine.set_global_options
            CommandLine.set_analysis CommandLine.set_scan_parameters
            CommandLine.set_nuisance_parameters CommandLine.set_inputs
            CommandLine.set_constraints CommandLine.set_partition_index
            CommandLine.set_resume_file CommandLine.set_massive_mode_finding
            CommandLine.set_massive_maximum_iterations CommandLine.set_optimize
            CommandLine.set_starting_point CommandLine.set_goodness_of_fit
            CommandLine.set_best_fit_point CommandLine.set_kinematics
            CommandLine.set_log_level].
  all: split; try (left; reflexivity); try (right; eexists; reflexivity).
  right. eexists. split; [|reflexivity]. congruence.
Qed.

End Analysis.

(** X16.  When the defaults of the sampler block no parameter, every
    parameter that the parsed configuration blocks from the adaptive
    proposal has a prior in the analysis: [--prior-as-proposal] accepts only
    the name of a parameter defined before it, and the analysis never loses
    a prior. *)
Theorem blocked_parameters_have_priors
  (E : Collaborators) (argv0 : string) (args : list string) (inst : CommandLine.t) :
  Config.block_proposal_parameters (Config_Quick E) = [] ->
  parse E argv0 args = Ok inst ->
  Forall (fun name => log_prior (CommandLine.analysis inst) name <> None)
    (Config.block_proposal_parameters (CommandLine.config inst)).
Proof.
  intros Hquick Hparse. unfold parse in Hparse.
  apply (parse_from_invariant E
           (fun inst =>
              Forall (fun name => log_prior (CommandLine.analysis inst) name <> None)
                (Config.block_proposal_parameters (CommandLine.config inst)))
           (fun _ => True)) with (4 := Hparse); [| now apply Forall_forall |].
  - intros argument a inst0 inst1 rest _ HP Hturn.
    destruct (turn_blocks E _ _ _ _ _ Hturn) as [Hana Hblock].
    assert (Hold : Forall (fun name => log_prior (CommandLine.analysis inst1) name <> None)
                     (Config.block_proposal_parameters (CommandLine.config inst0))).
    { destruct Hana as [-> | [d ->]]; [exact HP|].
      eapply Forall_impl; [|exact HP]. intros name. apply log_prior_grows. }
    destruct Hblock as [-> | [name [Hname ->]]]; [exact Hold|].
    apply Forall_app. split; [exact Hold | now constructor].
  - cbn. rewrite Hquick. constructor.
Qed.

Lemma blocked_parameters_have_priors_witness :
  exists inst,
    parse Standin.collaborators "eos-scan-mc"
      ["--nuisance"; "mass::b(MSbar)"; "3"; "5"; "--prior"; "gaussian"; "4"; "4"; "5";
       "--prior-as-proposal"; "mass::b(MSbar)"] = Ok inst
    /\ Config.block_proposal_parameters (CommandLine.config inst) = ["mass::b(MSbar)"]
    /\ Forall (fun name => log_prior (CommandLine.analysis inst) name <> None)
         (Config.block_proposal_parameters (CommandLine.config inst)).
Proof.
  eexists. split; [vm_compute; reflexivity|]. split; [reflexivity|].
  apply (blocked_parameters_have_priors Standin.collaborators "eos-scan-mc"
           ["--nuisance"; "mass::b(MSbar)"; "3"; "5"; "--prior"; "gaussian"; "4"; "4"; "5";
            "--prior-as-proposal"; "mass::b(MSbar)"]).
  - reflexivity.
  - vm_compute. reflexivity.
Defined.

Section Recorded.

Context (E : Collaborators).

(** The prior that [--scan] and [--nuisance] make. *)
Lemma scan_prior_made name min max n a prior_type prior range rest :
  scan_prior E name min max n a = Ok (prior_type, prior, range, rest) ->
  LogPrior.name prior = name
  /\ prior_kind prior = prior_type
  /\ prior_range prior = Some range.
Proof.
  unfold scan_prior. intros H.
  destruct a as [|kind a]; [discriminate H|]. cbn [next bind] in H.
  destruct (kind =? "gaussian") eqn:Hgauss; destruct (kind =? "log-gamma") eqn:Hgamma;
    destruct (kind =? "flat") eqn:Hflat; cbn [orb] in H;
    destruct (0 <? n)%float eqn:Hn; returned.
  all: repeat match goal with
         | H : (_ =? _) = true |- _ => apply String.eqb_eq in H; subst
         end.
  all: repeat split; discriminate.
Qed.

(** What a turn records: nothing, a discrete prior in the analysis, or a
    scan or nuisance parameter together with its description. *)
Lemma turn_records argument a inst inst' rest :
  parse_argument E argument a inst = Ok (inst', rest) ->
  (CommandLine.scan_parameters inst' = CommandLine.scan_parameters inst
   /\ CommandLine.nuisance_parameters inst' = CommandLine.nuisance_parameters inst
   /\ (CommandLine.analysis inst' = CommandLine.analysis inst
       \/ exists d, CommandLine.analysis inst' = CommandLine.analysis inst ++ [d]))
  \/ (exists data d,
         described false data d
         /\ CommandLine.scan_parameters inst' = CommandLine.scan_parameters inst ++ [data]
         /\ CommandLine.nuisance_parameters inst' = CommandLine.nuisance_parameters inst
         /\ CommandLine.analysis inst' = CommandLine.analysis inst ++ [d])
  \/ (exists data d,
         described true data d
         /\ CommandLine.scan_parameters inst' = CommandLine.scan_parameters inst
         /\ CommandLine.nuisance_parameters inst'
            = CommandLine.nuisance_parameters inst ++ [data]
         /\ CommandLine.analysis inst' = CommandLine.analysis inst ++ [d]).
Proof.
  intros H. which_option H. all: returned.
  all: lazymatch goal with
       | Hprior : scan_prior _ _ _ _ _ _ = Ok (_, _, ?range, _) |- _ =>
           apply scan_prior_made in Hprior as [Hname [Hkind Hrange]];
           destruct range;
           destruct (argument =? "--nuisance"); right; [right | left];
           eexists; eexists; (split; [| repeat split; reflexivity]);
           unfold described; cbn; repeat split; assumption
       | _ => left; repeat split; try (left; reflexivity); right; eexists; reflexivity
       end.
Qed.

End Recorded.

Lemma Exists_grows {A : Type} (P : A -> Prop) (l : list A) (x : A) :
  Exists P l -> Exists P (l ++ [x]).
Proof. intros H. apply Exists_app. now left. Qed.

(** X17.  Every scan parameter and every nuisance parameter that [parse]
    records is described in the analysis: there is a prior of its name, with
    its nuisance flag, of the kind recorded (flat, gaussian or log-gamma),
    made on the very range recorded as its minimum and maximum. *)
Theorem recorded_parameters_described
  (E : Collaborators) (argv0 : string) (args : list string) (inst : CommandLine.t) :
  parse E argv0 args = Ok inst ->
  Forall (fun data => Exists (described false data) (CommandLine.analysis inst))
    (CommandLine.scan_parameters inst)
  /\ Forall (fun data => Exists (described true data) (CommandLine.analysis inst))
       (CommandLine.nuisance_parameters inst).
Proof.
  intros Hparse. unfold parse in Hparse.
  apply (parse_from_invariant E
           (fun inst =>
              Forall (fun data => Exists (described false data) (CommandLine.analysis inst))
                (CommandLine.scan_parameters inst)
              /\ Forall (fun data => Exists (described true data) (CommandLine.analysis inst))
                   (CommandLine.nuisance_parameters inst))
           (fun _ => True)) with (4 := Hparse); [| now apply Forall_forall |].
  - intros argument a inst0 inst1 rest _ [Hscan Hnuisance] Hturn.
    destruct (turn_records E _ _ _ _ _ Hturn)
      as [[-> [-> Hana]] | [[data [d [Hd [-> [-> ->]]]]] | [data [d [Hd [-> [-> ->]]]]]]].
    + destruct Hana as [-> | [d ->]]; [now split|].
      split; (eapply Forall_impl; [|eassumption]); intros data; apply Exists_grows.
    + split.
      * apply Forall_app. split.
        -- eapply Forall_impl; [|exact Hscan]. intros data'. apply Exists_grows.
        -- constructor; [|constructor]. apply Exists_app. right. now constructor.
      * eapply Forall_impl; [|exact Hnuisance]. intros data'. apply Exists_grows.
    + split.
      * eapply Forall_impl; [|exact Hscan]. intros data'. apply Exists_grows.
      * apply Forall_app. split.
        -- eapply Forall_impl; [|exact Hnuisance]. intros data'. apply Exists_grows.
        -- constructor; [|constructor]. apply Exists_app. right. now constructor.
  - split; constructor.
Qed.

Lemma recorded_parameters_described_witness :
  exists inst,
    parse Standin.collaborators "eos-scan-mc"
      ["--scan"; usage_parameter; "0"; "15"; "--prior"; "flat";
       "--nuisance"; "mass::b(MSbar)"; "3"; "5"; "1"; "--prior"; "gaussian"; "4"; "4"; "5"]
    = Ok inst
    /\ length (CommandLine.scan_parameters inst) = 1
    /\ length (CommandLine.nuisance_parameters inst) = 1
    /\ Forall (fun data => Exists (described true data) (CommandLine.analysis inst))
         (CommandLine.nuisance_parameters inst).
Proof.
  eexists. split; [vm_compute; reflexivity|]. split; [reflexivity|]. split; [reflexivity|].
  apply (recorded_parameters_described Standin.collaborators "eos-scan-mc"
           ["--scan"; usage_parameter; "0"; "15"; "--prior"; "flat";
            "--nuisance"; "mass::b(MSbar)"; "3"; "5"; "1"; "--prior"; "gaussian";
            "4"; "4"; "5"]).
  vm_compute. reflexivity.
Defined.

(** ** Kinematics *)

Section Kinematics.

Context (E : Collaborators).

(** The turns at [--kinematics NAME VALUE] options put the variables on the
    kinematics, the latest first. *)
Lemma kinematics_declared (declared : list (string * string)) :
  forall (rest : list string) (inst : CommandLine.t),
    parse_turns E (length declared) (kinematics_words declared ++ rest) inst
    = Ok (CommandLine.set_kinematics
            (rev (map (fun '(name, value) => (name, destringify_double E value)) declared)
             ++ CommandLine.kinematics inst) inst,
          rest).
Proof.
  induction declared as [|[name value] declared IH]; intros rest inst.
  - destruct inst; reflexivity.
  - change (kinematics_words ((name, value) :: declared) ++ rest)
      with ("--kinematics" :: name :: value :: kinematics_words declared ++ rest).
    cbn [length parse_turns].
    change (parse_argument E "--kinematics") with (parse_kinematics E).
    unfold parse_kinematics. cbn [next bind]. rewrite IH.
    cbn [map rev CommandLine.kinematics CommandLine.set_kinematics].
    rewrite <- app_assoc. destruct inst; reflexivity.
Qed.

End Kinematics.

(** X18.  The kinematic variables declared before an observable belong to
    that observable alone: after [--kinematics] options and an
    [--observable] that is known, the input added carries the variables
    declared since the instance had none, with the bounds given, and the
    kinematics are empty again for the next observable. *)
Theorem kinematics_belong_to_next_observable
  (E : Collaborators) (inst : CommandLine.t) (declared : list (string * string))
  (observable_name wmin wcentral wmax : string) (rest : list string) :
  CommandLine.kinematics inst = [] ->
  let kinematics :=
    rev (map (fun '(name, value) => (name, destringify_double E value)) declared) in
  let inst' :=
    CommandLine.set_inputs
      (CommandLine.inputs inst
       ++ [ObservableInput.mk observable_name kinematics
             (destringify_double E wmin) (destringify_double E wcentral)
             (destringify_double E wmax)])
      inst in
  Observable_make E observable_name kinematics (CommandLine.global_options inst) = Ok true ->
  parse_turns E (S (length declared))
    (kinematics_words declared
     ++ "--observable" :: observable_name :: wmin :: wcentral :: wmax :: rest) inst
  = Ok (inst', rest)
  /\ CommandLine.kinematics inst' = [].
Proof.
  intros Hnone kinematics inst' Hmade. split; [|exact Hnone].
  assert (Hsplit : forall k a i,
             parse_turns E (S k) a i
             = ('(i', a') <- parse_turns E k a i ;; parse_turns E 1 a' i')).
  { induction k as [|k IHk]; intros a i.
    - cbn [parse_turns bind]. destruct a; reflexivity.
    - destruct a as [|argument a]; [reflexivity|].
      change (parse_turns E (S (S k)) (argument :: a) i)
        with ('(i', a') <- parse_argument E argument a i ;; parse_turns E (S k) a' i').
      change (parse_turns E (S k) (argument :: a) i)
        with ('(i', a') <- parse_argument E argument a i ;; parse_turns E k a' i').
      destruct (parse_argument E argument a i) as [[i' a']| | |]; try reflexivity.
      cbn [bind]. apply IHk. }
  rewrite Hsplit, kinematics_declared.
  cbn [bind parse_turns].
  change (parse_argument E "--observable") with (parse_observable E).
  unfold parse_observable. cbn [next bind CommandLine.kinematics CommandLine.set_kinematics
                                  CommandLine.global_options].
  rewrite Hnone, app_nil_r. fold kinematics. rewrite Hmade. cbn [bind negb].
  subst inst'. destruct inst; cbn in Hnone |- *; subst; reflexivity.
Qed.

Lemma kinematics_belong_to_next_observable_witness :
  parse_turns Standin.collaborators 3
    ["--kinematics"; "s_min"; "14"; "--kinematics"; "s_max"; "16";
     "--observable"; "B->K^*ll::BR@LowRecoil"; "1"; "2"; "3"; "--chains"; "2"]
    (parse_start Standin.collaborators "eos-scan-mc" [])
  = Ok (CommandLine.set_inputs
          [ObservableInput.mk "B->K^*ll::BR@LowRecoil"
             [("s_max", 16%float); ("s_min", 14%float)] 1 2 3]
          (parse_start Standin.collaborators "eos-scan-mc" []),
        ["--chains"; "2"]).
Proof.
  exact (proj1 (kinematics_belong_to_next_observable Standin.collaborators
                  (parse_start Standin.collaborators "eos-scan-mc" [])
                  [("s_min", "14"); ("s_max", "16")]
                  "B->K^*ll::BR@LowRecoil" "1" "2" "3" ["--chains"; "2"]
                  eq_refl eq_refl)).
Defined.

(** ** How a run ends *)

Section Ends.

Context (E : Collaborators).

Ltac works_here :=
  solve [ split;
          [ intros ev Hin; cbn [fst In app] in Hin; intuition (subst; reflexivity)
          | intros status Hstatus; cbn [snd] in Hstatus;
            first [ discriminate Hstatus
                  | inversion Hstatus; split;
                    [reflexivity | cbn [fst app]; discriminate] ] ] ].

Lemma run_optimize_works (inst : CommandLine.t) : works (run_optimize E inst).
Proof.
  unfold run_optimize, silent, call.
  destruct (match CommandLine.starting_point inst with
            | [] => _ | _ :: _ => _ end) as [sp| | |];
    cbn [tbind]; try works_here.
  destruct (negb _); cbn [app]; try works_here.
  destruct (optimize_minuit E _ sp) as [ret| | |]; cbn [tbind]; try works_here.
  destruct (_ && _).
  - destruct (Analysis_goodness_of_fit E _ ret None) as [[]| | |];
      cbn [tbind app]; works_here.
  - cbn [app]. works_here.
Qed.

Lemma run_sampler_works (inst : CommandLine.t) : works (run_sampler E inst).
Proof.
  unfold run_sampler, silent, call.
  destruct (match CommandLine.partition_index inst with
            | Some i => _ | None => _ end) as [config| | |];
    cbn [tbind]; try works_here.
  destruct (MarkovChainSampler_new E _ config) as [[]| | |]; cbn [tbind app];
    try works_here.
  destruct (CommandLine.massive_mode_finding inst).
  - destruct (massive_mode_finding_run E _ config _ _) as [[]| | |];
      cbn [tbind app]; works_here.
  - destruct (MarkovChainSampler_run E _ config) as [[]| | |];
      cbn [tbind app]; works_here.
Qed.

(** The body of [main] reports nothing itself, and returns only after a call
    of the optimizer, the goodness of fit or the sampler. *)
Lemma main_body_works (inst : CommandLine.t) : works (main_body E inst).
Proof.
  unfold main_body.
  destruct (CommandLine.inputs inst), (CommandLine.constraints inst).
  1: unfold silent; works_here.
  all: destruct (CommandLine.optimize inst); [apply run_optimize_works|].
  all: destruct (CommandLine.goodness_of_fit inst); [|apply run_sampler_works].
  all: unfold call, silent;
    destruct (Analysis_goodness_of_fit E _ _ _) as [[]| | |]; cbn [tbind app];
    works_here.
Qed.

End Ends.

(** X20.  The exit status tells whether a failure was reported.  A run that
    exits successfully has reported nothing and has called the optimizer,
    the goodness of fit or the sampler; a run that exits with failure has
    reported exactly one failure, as the last thing it did.  No run exits
    with another status. *)
Theorem exit_status_tells_failure
  (E : Collaborators) (argv0 : string) (args : list string) :
  let outcome := main E argv0 args in
  (snd outcome = exited EXIT_SUCCESS ->
   fst outcome <> [] /\ forall ev, In ev (fst outcome) -> is_report ev = false)
  /\ (snd outcome = exited EXIT_FAILURE ->
      exists before report,
        fst outcome = before ++ [report]
        /\ is_report report = true
        /\ forall ev, In ev before -> is_report ev = false)
  /\ (snd outcome <> exited EXIT_SUCCESS -> snd outcome <> exited EXIT_FAILURE ->
      (snd outcome = undefined_behaviour \/ snd outcome = aborted)
      /\ forall ev, In ev (fst outcome) -> is_report ev = false).
Proof.
  intros outcome.
  assert (Hbody : exists m : traced exit_status, outcome = handlers m /\ works m).
  { subst outcome. unfold main, silent.
    destruct (parse E argv0 args) as [inst| e | |]; cbn [tbind].
    - exists (main_body E inst). split; [now destruct (main_body E inst)|].
      apply main_body_works.
    - exists ([], Throw e). split; [reflexivity|]. split; [intros ev [] | discriminate].
    - exists ([], Undefined). split; [reflexivity|]. split; [intros ev [] | discriminate].
    - exists ([], Aborted). split; [reflexivity|]. split; [intros ev [] | discriminate]. }
  destruct Hbody as [[trace r] [-> [Hquiet Hworks]]]. cbn [fst snd] in Hquiet, Hworks.
  destruct r as [status | [what|what|what] | |]; cbn [handlers fst snd].
  - destruct (Hworks status eq_refl) as [-> Hsome].
    split; [intros _; now split|]. split; [discriminate|]. intros Hne. now contradiction Hne.
  - split; [discriminate|]. split; [|intros _ Hne; now contradiction Hne].
    intros _. exists trace, (usage_printed what). now repeat split.
  - split; [discriminate|]. split; [|intros _ Hne; now contradiction Hne].
    intros _. exists trace, (exception_printed what). now repeat split.
  - split; [discriminate|]. split; [|intros _ Hne; now contradiction Hne].
    intros _. exists trace, aborting_printed. now repeat split.
  - split; [discriminate|]. split; [discriminate|]. intros _ _. split; [now left | exact Hquiet].
  - split; [discriminate|]. split; [discriminate|]. intros _ _. split; [now right | exact Hquiet].
Qed.

(** X21.  [--print-args] ends the process by [abort()]: a run that meets it
    is aborted there, with nothing reported and nothing run, whatever comes
    after it on the command line. *)
Theorem print_args_aborts
  (E : Collaborators) (argv0 : string) (args : list string) (k : nat)
  (inst : CommandLine.t) (a : list string) :
  parse_turns E k args (parse_start E argv0 args) = Ok (inst, "--print-args" :: a) ->
  main E argv0 args = ([], aborted).
Proof.
  intros Hk. unfold main, parse.
  rewrite (parse_from_turns E k _ _ _ _ Hk), parse_from_cons. reflexivity.
Qed.

Lemma print_args_aborts_witness :
  main Standin.collaborators "eos-scan-mc"
    ["--constraint"; usage_constraint; "--print-args"; "--no-such-option"]
  = ([], aborted).
Proof.
  eapply (print_args_aborts Standin.collaborators "eos-scan-mc"
            ["--constraint"; usage_constraint; "--print-args"; "--no-such-option"] 1).
  vm_compute. reflexivity.
Defined.
